(** * Fiscal-report batch classifier (app_parcelamento.py)

    A shallow embedding of the text pipeline of [app_parcelamento.py]:
    the marker classifier ([analyze_text] and the copy inlined in
    [process_pdf]), the company-name search over the first two pages,
    the aggregating loop of [processamento] and [filter_results].

    Python [str] values are sequences of Unicode code points, [bytes]
    values are byte lists, exceptions are an explicit result type. *)

From Stdlib Require Import String Ascii.
From Stdlib Require Import List NArith ZArith Lia Bool Permutation Sorted.
Import ListNotations.

Set Implicit Arguments.

(** ** Python strings *)

Module Py.

Definition char := N.
Definition str := list char.
Definition bytes := list Init.Byte.byte.

(** Source literals are written in the file as UTF-8; [utf8] turns the
    bytes of a literal into its code points. *)
Fixpoint utf8_bytes (s : string) : list N :=
  match s with
  | EmptyString => []
  | String a s' => N_of_ascii a :: utf8_bytes s'
  end.

Definition cont (b : N) : N := N.land b 63.

Fixpoint utf8_decode (l : list N) : str :=
  match l with
  | [] => []
  | b :: r =>
      if (b <? 128)%N then b :: utf8_decode r
      else if (b <? 224)%N then
        match r with
        | c1 :: r1 => (N.shiftl (N.land b 31) 6 + cont c1)%N :: utf8_decode r1
        | _ => []
        end
      else if (b <? 240)%N then
        match r with
        | c1 :: c2 :: r2 =>
            (N.shiftl (N.land b 15) 12 + N.shiftl (cont c1) 6 + cont c2)%N
              :: utf8_decode r2
        | _ => []
        end
      else
        match r with
        | c1 :: c2 :: c3 :: r3 =>
            (N.shiftl (N.land b 7) 18 + N.shiftl (cont c1) 12
             + N.shiftl (cont c2) 6 + cont c3)%N :: utf8_decode r3
        | _ => []
        end
  end.

Definition utf8 (s : string) : str := utf8_decode (utf8_bytes s).

(** [s.startswith(p)] *)
Fixpoint startswith (s p : str) {struct p} : bool :=
  match p, s with
  | [], _ => true
  | _ :: _, [] => false
  | a :: p', b :: s' => (a =? b)%N && startswith s' p'
  end.

(** [s.endswith(p)] *)
Definition endswith (s p : str) : bool :=
  startswith (rev s) (rev p).

(** [s.find(sub)]: the lowest index at which [sub] starts, [-1] when
    there is none.  [find_from] carries the index of the current
    suffix. *)
Fixpoint find_from (s sub : str) (i : Z) : Z :=
  if startswith s sub then i
  else match s with
       | [] => (-1)%Z
       | _ :: s' => find_from s' sub (i + 1)
       end.

Definition find (s sub : str) : Z := find_from s sub 0.

(** [sub in s] *)
Fixpoint contains (sub s : str) : bool :=
  if startswith s sub then true
  else match s with
       | [] => false
       | _ :: s' => contains sub s'
       end.

(** Slice bounds as CPython adjusts them for step 1: a negative bound
    counts from the end, and every bound is clipped to [0, len]. *)
Definition adjust_index (len i : Z) : Z :=
  if (i <? 0)%Z then Z.max 0 (i + len) else Z.min i len.

(** [s[i:j]] *)
Definition slice (s : str) (i j : Z) : str :=
  let len := Z.of_nat (length s) in
  let lo := adjust_index len i in
  let hi := adjust_index len j in
  firstn (Z.to_nat (hi - lo)) (skipn (Z.to_nat lo) s).

(** [s[i:]] *)
Definition slice_from (s : str) (i : Z) : str :=
  slice s i (Z.of_nat (length s)).

(** Truth value of [Optional[str]]: [None] and the empty string are
    false. *)
Definition truthy (o : option str) : bool :=
  match o with
  | Some (_ :: _) => true
  | _ => false
  end.

(** [str.isspace] on one code point; the same table decides [\s] in
    [re] patterns over [str] and what [str.strip()] removes. *)
Definition isspace (c : char) : bool :=
  ((9 <=? c) && (c <=? 13) || (28 <=? c) && (c <=? 32)
   || (c =? 133) || (c =? 160) || (c =? 5760)
   || (8192 <=? c) && (c <=? 8202)
   || (c =? 8232) || (c =? 8233) || (c =? 8239) || (c =? 8287)
   || (c =? 12288))%N.

Fixpoint lstrip (s : str) : str :=
  match s with
  | c :: s' => if isspace c then lstrip s' else s
  | [] => []
  end.

Definition rstrip (s : str) : str := rev (lstrip (rev s)).

(** [s.strip()] *)
Definition strip (s : str) : str := rstrip (lstrip s).

End Py.

Import Py.

(** ** The installment classifier *)

Definition rf_title : str :=
  Eval cbv in utf8 "Diagnóstico Fiscal na Receita Federal".
Definition pgfn_title : str :=
  Eval cbv in utf8 "Diagnóstico Fiscal na Procuradoria-Geral da Fazenda Nacional".
Definition em_parcelamento : str :=
  Eval cbv in utf8 "EM PARCELAMENTO".
Definition base_indisponivel : str :=
  Eval cbv in utf8 "BASE INDISPONÍVEL".
Definition parcelamento : str :=
  Eval cbv in utf8 "Parcelamento".
Definition pendencia_parcelamento : str :=
  Eval cbv in utf8 "Pendência - Parcelamento".
Definition nao_detectadas : str :=
  Eval cbv in utf8 "Não foram detectadas pendências/exigibilidades suspensas".

Definition found (i : Z) : bool := negb (i =? -1)%Z.

(** The two slices of [analyze_text]. *)
Definition rf_section_of (text : str) : str :=
  let rf_start := find text rf_title in
  let pgfn_start := find text pgfn_title in
  if found rf_start && found pgfn_start
  then slice text rf_start pgfn_start else [].

Definition pgfn_section_of (text : str) : str :=
  let pgfn_start := find text pgfn_title in
  if found pgfn_start then slice_from text pgfn_start else [].

(** [analyze_text], statement by statement. *)
Definition analyze_text (text : str) : bool * bool :=
  let rf_start := find text rf_title in
  let pgfn_start := find text pgfn_title in
  let rf_section :=
    if found rf_start && found pgfn_start
    then slice text rf_start pgfn_start else [] in
  let pgfn_section :=
    if found pgfn_start then slice_from text pgfn_start else [] in
  let rf_parc := contains em_parcelamento rf_section in
  let rf_parc :=
    if negb rf_parc && contains base_indisponivel rf_section
       && contains parcelamento rf_section
    then false else rf_parc in
  let pgfn_parc := contains pendencia_parcelamento pgfn_section in
  let pgfn_parc :=
    if negb pgfn_parc && contains nao_detectadas pgfn_section
    then false else pgfn_parc in
  (rf_parc, pgfn_parc).

(** The classifier as the specification words it: each flag is the
    occurrence of the primary marker in its section, nothing else. *)
Definition classify_primary (text : str) : bool * bool :=
  (contains em_parcelamento (rf_section_of text),
   contains pendencia_parcelamento (pgfn_section_of text)).

(** ** Exceptions *)

(** A call either returns or raises; the payload of [Raise] is
    [str(e)]. *)
Inductive Res (A : Type) : Type :=
| Ok (a : A)
| Raise (msg : str).

Arguments Ok {A} a.
Arguments Raise {A} msg.

Definition bind {A B : Type} (r : Res A) (k : A -> Res B) : Res B :=
  match r with
  | Ok a => k a
  | Raise e => Raise e
  end.

Notation "x <- e ;; k" := (bind e (fun x => k))
  (at level 61, e at next level, right associativity).

(** ** A backtracking matcher for the [re] patterns of the program *)

Module Re.

Inductive node : Type :=
| Lit (c : char)              (* a literal character *)
| Set_ (p : char -> bool)     (* one character of a class *)
| Star (p : char -> bool)     (* greedy [*] over a class *)
| Mark (m : nat).             (* group boundary: 2g-2 opens group g, 2g-1 closes it *)

Definition marks := list (nat * nat).

Fixpoint lookup (m : nat) (mk : marks) : option nat :=
  match mk with
  | [] => None
  | (m', i) :: mk' => if Nat.eqb m m' then Some i else lookup m mk'
  end.

(** [run re s i mk]: match [re] against the suffix [s] that starts at
    index [i]; the result is the end index and the marks.  A star takes
    as many characters as it can and gives them back one at a time. *)
Fixpoint run (re : list node) : str -> nat -> marks -> option (nat * marks) :=
  match re with
  | [] => fun _ i mk => Some (i, mk)
  | n :: re' =>
      match n with
      | Lit a => fun s i mk =>
          match s with
          | b :: s' => if (a =? b)%N then run re' s' (S i) mk else None
          | [] => None
          end
      | Set_ p => fun s i mk =>
          match s with
          | b :: s' => if p b then run re' s' (S i) mk else None
          | [] => None
          end
      | Star p =>
          fix star (s : str) (i : nat) (mk : marks) : option (nat * marks) :=
            match s with
            | b :: s' =>
                if p b then
                  match star s' (S i) mk with
                  | Some r => Some r
                  | None => run re' s i mk
                  end
                else run re' s i mk
            | [] => run re' s i mk
            end
      | Mark m => fun s i mk => run re' s i ((m, i) :: mk)
      end
  end.

(** [re.search]: the leftmost start at which the pattern matches. *)
Fixpoint search_from (re : list node) (s : str) (i : nat) : option (nat * marks) :=
  match run re s i [] with
  | Some r => Some r
  | None =>
      match s with
      | [] => None
      | _ :: s' => search_from re s' (S i)
      end
  end.

Definition search (re : list node) (text : str) : option (nat * marks) :=
  search_from re text 0.

(** [match.group(g)] for [g >= 1]; [None] when the group took no part. *)
Definition group (text : str) (r : nat * marks) (g : nat) : option str :=
  match lookup (2 * g - 2) (snd r), lookup (2 * g - 1) (snd r) with
  | Some a, Some b => Some (firstn (b - a) (skipn a text))
  | _, _ => None
  end.

Definition lit (s : str) : list node := map Lit s.

End Re.

(** ** What the program takes from its libraries *)

(** The outcome of [page.extract_text()]. *)
Definition page := Res (option str).

Class Env : Type := {
  (** [PdfReader(BytesIO(b)).pages], each page with what its
      [extract_text()] gives *)
  PdfReader : bytes -> Res (list page);
  (** [pdfplumber.open(BytesIO(b)).pages], likewise *)
  pdfplumber_open : bytes -> Res (list page);
  (** [\d] over [str]: the Unicode decimal digits *)
  isdecimal : char -> bool;
  (** [str.lower] *)
  lower : str -> str;
  (** the order in which [concurrent.futures.as_completed] yields *)
  as_completed : forall A : Type, list A -> list A;
  isdecimal_ascii : forall c, (48 <= c <= 57)%N -> isdecimal c = true;
  as_completed_perm : forall (A : Type) (l : list A), Permutation (as_completed l) l
}.

Section Program.

Context {env : Env}.

Definition newline : char := 10%N.

(** [x or ""] *)
Definition or_empty (t : option str) : str :=
  match t with
  | Some s => s
  | None => []
  end.

Definition dot : char := 46%N.
Definition dash : char := 45%N.

(** What [.] matches: any character but the newline. *)
Definition not_newline (c : char) : bool := negb (c =? newline)%N.

(** [r'CNPJ:\s*(\d{2}\.\d{3}\.\d{3})\s*-\s*(.+)'] *)
Definition cnpj_re : list Re.node :=
  Re.lit (utf8 "CNPJ:")
  ++ [Re.Star isspace;
      Re.Mark 0;
      Re.Set_ isdecimal; Re.Set_ isdecimal; Re.Lit dot;
      Re.Set_ isdecimal; Re.Set_ isdecimal; Re.Set_ isdecimal; Re.Lit dot;
      Re.Set_ isdecimal; Re.Set_ isdecimal; Re.Set_ isdecimal;
      Re.Mark 1;
      Re.Star isspace; Re.Lit dash; Re.Star isspace;
      Re.Mark 2; Re.Set_ not_newline; Re.Star not_newline; Re.Mark 3].

Definition attribute_error : str :=
  Eval cbv in utf8 "'NoneType' object has no attribute 'strip'".

(** [match.group(2).strip()] *)
Definition group2_strip (text : str) (m : nat * Re.marks) : Res str :=
  match Re.group text m 2 with
  | Some g => Ok (strip g)
  | None => Raise attribute_error
  end.

(** The page loop of [extract_company_name_from_bytes]. *)
Fixpoint search_pages (pages : list page) : Res (option str) :=
  match pages with
  | [] => Ok None
  | pg :: rest =>
      t <- pg ;;
      let text := or_empty t in
      match Re.search cnpj_re text with
      | Some m => name <- group2_strip text m ;; Ok (Some name)
      | None => search_pages rest
      end
  end.

Definition extract_company_name_from_bytes (file_bytes : bytes) : Res (option str) :=
  pdf <- pdfplumber_open file_bytes ;;
  search_pages (firstn 2 pdf).

(** The text loop of [extract_text_from_bytes] and of [process_pdf]. *)
Fixpoint text_loop (pages : list page) (text : str) : Res str :=
  match pages with
  | [] => Ok text
  | pg :: rest =>
      t <- pg ;;
      text_loop rest ((text ++ or_empty t) ++ [newline])
  end.

Definition extract_text_from_bytes (file_bytes : bytes) : Res str :=
  pages <- PdfReader file_bytes ;;
  text_loop pages [].

(** The page loop inlined in [process_pdf]: [empresa] keeps its value
    until a page matches, and the loop breaks there. *)
Fixpoint empresa_loop (pages : list page) (empresa : option str) : Res (option str) :=
  match pages with
  | [] => Ok empresa
  | pg :: rest =>
      t <- pg ;;
      let text_pdf := or_empty t in
      match Re.search cnpj_re text_pdf with
      | Some m => name <- group2_strip text_pdf m ;; Ok (Some name)
      | None => empresa_loop rest empresa
      end
  end.

(** The body of the [try] of [process_pdf]. *)
Definition process_pdf_try (file_bytes : bytes) : Res (option str * bool * bool) :=
  pages <- PdfReader file_bytes ;;
  text <- text_loop pages [] ;;
  pdf <- pdfplumber_open file_bytes ;;
  empresa <- empresa_loop (firstn 2 pdf) None ;;
  let rf_start := find text rf_title in
  let pgfn_start := find text pgfn_title in
  let rf_section :=
    if found rf_start && found pgfn_start
    then slice text rf_start pgfn_start else [] in
  let pgfn_section :=
    if found pgfn_start then slice_from text pgfn_start else [] in
  let rf_parc := contains em_parcelamento rf_section in
  let rf_parc :=
    if negb rf_parc && contains base_indisponivel rf_section
       && contains parcelamento rf_section
    then false else rf_parc in
  let pgfn_parc := contains pendencia_parcelamento pgfn_section in
  let pgfn_parc :=
    if negb pgfn_parc && contains nao_detectadas pgfn_section
    then false else pgfn_parc in
  Ok (empresa, rf_parc, pgfn_parc).

Definition erro_pdf : str := Eval cbv in utf8 "Erro ao processar PDF: ".

(** [process_pdf]: the outcome of the call together with the messages
    it hands to [st.error]. *)
Definition process_pdf (file_bytes : bytes)
  : Res (option str * bool * bool) * list str :=
  match process_pdf_try file_bytes with
  | Ok r => (Ok r, [])
  | Raise e => (Ok (None, false, false), [erro_pdf ++ e])
  end.

(** ** The archive *)

Record ZipInfo : Type := {
  zi_filename : str;
  (** what reading this entry gives: its bytes, or the error of a
      damaged or encrypted entry *)
  zi_data : Res bytes
}.

Definition ZipFile := list ZipInfo.

Fixpoint str_eqb (a b : str) : bool :=
  match a, b with
  | [], [] => true
  | x :: a', y :: b' => (x =? y)%N && str_eqb a' b'
  | _, _ => false
  end.

(** [zf.NameToInfo]: a later entry of the same name replaces the
    earlier one. *)
Definition getinfo (zf : ZipFile) (name : str) : option ZipInfo :=
  List.find (fun info => str_eqb (zi_filename info) name) (rev zf).

Definition key_error : str := Eval cbv in utf8 "There is no item named ".

(** [zf.read(name)] *)
Definition zf_read (zf : ZipFile) (name : str) : Res bytes :=
  match getinfo zf name with
  | Some info => zi_data info
  | None => Raise (key_error ++ name)
  end.

(** ** The aggregating loop of [processamento] *)

Record result : Type := {
  empresa : str;
  rf : bool;
  pgfn : bool;
  filename : str
}.

Record acc : Type := {
  all_results : list result;
  matched_files : list (str * bytes);
  unmatched_files : list (str * bytes);
  processed : nat;
  (** the messages of the loop's own [except] branch *)
  errors : list str
}.

Definition acc0 : acc :=
  {| all_results := []; matched_files := []; unmatched_files := [];
     processed := 0; errors := [] |}.

(** What [future.result()] gives. *)
Definition Future := Res (option str * bool * bool).

Definition dot_pdf : str := Eval cbv in utf8 ".pdf".
Definition erro_arquivo : str := Eval cbv in utf8 "Erro ao processar ".
Definition colon_space : str := Eval cbv in utf8 ": ".

Definition report (st : acc) (fname e : str) : acc :=
  {| all_results := all_results st;
     matched_files := matched_files st;
     unmatched_files := unmatched_files st;
     processed := processed st;
     errors := errors st ++ [erro_arquivo ++ fname ++ colon_space ++ e] |}.

(** The [try] of one iteration; the record is appended before the entry
    is read again. *)
Definition step_try (zf : ZipFile) (st : acc) (fut : Future) (fname : str) : acc :=
  match fut with
  | Raise e => report st fname e
  | Ok (emp, rf_parc, pgfn_parc) =>
      match emp with
      | Some (c :: name') =>
          let name := c :: name' in
          let res := {| empresa := name; rf := rf_parc; pgfn := pgfn_parc;
                        filename := fname |} in
          let st1 := {| all_results := all_results st ++ [res];
                        matched_files := matched_files st;
                        unmatched_files := unmatched_files st;
                        processed := processed st;
                        errors := errors st |} in
          match zf_read zf fname with
          | Ok file_bytes =>
              let new_name := name ++ dot_pdf in
              {| all_results := all_results st1;
                 matched_files := matched_files st1 ++ [(new_name, file_bytes)];
                 unmatched_files := unmatched_files st1;
                 processed := processed st1;
                 errors := errors st1 |}
          | Raise e => report st1 fname e
          end
      | _ =>
          match zf_read zf fname with
          | Ok file_bytes =>
              {| all_results := all_results st;
                 matched_files := matched_files st;
                 unmatched_files := unmatched_files st ++ [(fname, file_bytes)];
                 processed := processed st;
                 errors := errors st |}
          | Raise e => report st fname e
          end
      end
  end.

Definition step (zf : ZipFile) (st : acc) (item : Future * str) : acc :=
  let st' := step_try zf st (fst item) (snd item) in
  {| all_results := all_results st';
     matched_files := matched_files st';
     unmatched_files := unmatched_files st';
     processed := S (processed st');
     errors := errors st' |}.

Definition loop (zf : ZipFile) (done : list (Future * str)) (st : acc) : acc :=
  fold_left (step zf) done st.

(** [info.filename.lower().endswith('.pdf')] *)
Definition is_pdf (info : ZipInfo) : bool :=
  endswith (lower (zi_filename info)) dot_pdf.

Definition pdf_files (zf : ZipFile) : list ZipInfo := filter is_pdf zf.

(** The dictionary [future_to_file], in submission order: each entry is
    read, and the read is outside every [try]. *)
Fixpoint submit_all (zf : ZipFile) (infos : list ZipInfo) : Res (list (Future * str)) :=
  match infos with
  | [] => Ok []
  | info :: rest =>
      file_bytes <- zf_read zf (zi_filename info) ;;
      futs <- submit_all zf rest ;;
      Ok ((fst (process_pdf file_bytes), zi_filename info) :: futs)
  end.

Definition renomeados : str := Eval cbv in utf8 "renomeados/".
Definition nao_encontrados : str := Eval cbv in utf8 "nao_encontrados/".

(** The name [zipfile.ZipInfo] keeps for an entry: the name it is given,
    ended at the first NUL character.  (Where [os.sep] is not "/" it
    also replaces [os.sep] by "/"; the separator is taken to be "/".) *)
Fixpoint arcname (filename : str) : str :=
  match filename with
  | [] => []
  | c :: rest => if (c =? 0)%N then [] else c :: arcname rest
  end.

(** No NUL character occurs in the text. *)
Definition no_nul (s : str) : bool := forallb (fun c => negb (c =? 0)%N) s.

(** [zout.writestr(name, data)]: the entry as the archive stores it.
    The name is taken to be one that [zipfile] can encode, as every
    text decoded from a file is; on any other name [writestr] raises. *)
Definition writestr (name : str) (data : bytes) : str * bytes :=
  (arcname name, data).

(** The entries written to the output archive, in writing order. *)
Definition write_zip (st : acc) : list (str * bytes) :=
  map (fun f => writestr (renomeados ++ fst f) (snd f)) (matched_files st)
  ++ map (fun f => writestr (nao_encontrados ++ fst f) (snd f)) (unmatched_files st).

Record Batch : Type := {
  dados : acc;
  zout : list (str * bytes)
}.

Definition processamento (zf : ZipFile) : Res Batch :=
  future_to_file <- submit_all zf (pdf_files zf) ;;
  let st := loop zf (as_completed future_to_file) acc0 in
  Ok {| dados := st; zout := write_zip st |}.

(** ** Filtering *)

Definition term_matches (emp : str) (search_terms : list str) : bool :=
  existsb (fun term => contains (lower term) emp) search_terms.

Fixpoint filter_loop (results : list result) (search_terms : list str)
    (filtered : list result) : list result :=
  match results with
  | [] => filtered
  | r :: rest =>
      let emp := lower (empresa r) in
      if term_matches emp search_terms
      then filter_loop rest search_terms (filtered ++ [r])
      else filter_loop rest search_terms filtered
  end.

Definition filter_results (results : list result) (search_terms : list str)
  : list result :=
  match search_terms with
  | [] => results
  | _ :: _ => filter_loop results search_terms []
  end.

End Program.


(** ** Occurrences, stated without the search functions *)

(** [sub] occurs in [s] at offset [k]. *)
Definition occurs_at (sub s : str) (k : nat) : Prop :=
  exists u v, s = u ++ sub ++ v /\ length u = k.

Definition occurs (sub s : str) : Prop := exists k, occurs_at sub s k.

(** [k] is the offset of the first occurrence of [sub] in [s]. *)
Definition first_occ (sub s : str) (k : nat) : Prop :=
  occurs_at sub s k /\ forall j, occurs_at sub s j -> k <= j.

(** A text in which the four literals occur in the order
    RF header, "EM PARCELAMENTO", PGFN header, "Pendência - Parcelamento". *)
Definition template (A B C D E : str) : str :=
  A ++ rf_title ++ B ++ em_parcelamento ++ C ++ pgfn_title ++ D
    ++ pendencia_parcelamento ++ E.

(** ** What a match is, stated without the matcher *)

(** [chain re s i mk k]: the suffix [s] at index [i] splits along [re],
    and [k] holds of what is left after it. *)
Fixpoint chain (re : list Re.node) (s : str) (i : nat) (mk : Re.marks)
    (k : str -> nat -> Re.marks -> Prop) : Prop :=
  match re with
  | [] => k s i mk
  | Re.Lit a :: re' => exists s', s = a :: s' /\ chain re' s' (S i) mk k
  | Re.Set_ p :: re' =>
      exists b s', s = b :: s' /\ p b = true /\ chain re' s' (S i) mk k
  | Re.Star p :: re' =>
      exists w s', s = w ++ s' /\ forallb p w = true
                   /\ chain re' s' (i + length w) mk k
  | Re.Mark m :: re' => chain re' s i ((m, i) :: mk) k
  end.

(** The pattern up to the first character of group 2. *)
Definition cnpj_head {env : Env} : list Re.node :=
  Re.lit (utf8 "CNPJ:")
  ++ [Re.Star isspace;
      Re.Mark 0;
      Re.Set_ isdecimal; Re.Set_ isdecimal; Re.Lit dot;
      Re.Set_ isdecimal; Re.Set_ isdecimal; Re.Set_ isdecimal; Re.Lit dot;
      Re.Set_ isdecimal; Re.Set_ isdecimal; Re.Set_ isdecimal;
      Re.Mark 1;
      Re.Star isspace; Re.Lit dash; Re.Star isspace;
      Re.Mark 2; Re.Set_ not_newline].

(** The longest prefix of [s] whose characters are all in the class. *)
Fixpoint takewhile (p : char -> bool) (s : str) : str :=
  match s with
  | c :: s' => if p c then c :: takewhile p s' else []
  | [] => []
  end.

(** [name] is the text to the end of the line after a header
    "CNPJ:", blanks, DD.DDD.DDD, blanks, a dash and blanks, and the
    header starts at offset [k] of [text]. *)
Definition cnpj_line_at {env : Env} (text : str) (k : nat) (name : str) : Prop :=
  exists pre w1 d w2 w3 rest,
    text = pre ++ utf8 "CNPJ:" ++ w1 ++ d ++ w2 ++ [dash] ++ w3 ++ name ++ rest
    /\ length pre = k
    /\ forallb isspace w1 = true /\ forallb isspace w2 = true
    /\ forallb isspace w3 = true
    /\ (exists a1 a2 b1 b2 b3 c1 c2 c3,
          d = [a1; a2; dot; b1; b2; b3; dot; c1; c2; c3]
          /\ forallb isdecimal [a1; a2; b1; b2; b3; c1; c2; c3] = true)
    /\ name <> [] /\ forallb not_newline name = true
    /\ (rest = [] \/ exists rest', rest = newline :: rest').

(** [name] belongs to the leftmost such header of [text]. *)
Definition cnpj_first {env : Env} (text name : str) : Prop :=
  exists k, cnpj_line_at text k name
            /\ forall j n, cnpj_line_at text j n -> k <= j.

(** ** What one completed future contributes to the batch *)

Section Contribution.

Context {env : Env}.

Variable zf : ZipFile.

Definition records_of (item : Future * str) : list result :=
  match fst item with
  | Ok (Some (c :: n), rf_parc, pgfn_parc) =>
      [{| empresa := c :: n; rf := rf_parc; pgfn := pgfn_parc;
          filename := snd item |}]
  | _ => []
  end.

Definition matched_of (item : Future * str) : list (str * bytes) :=
  match fst item with
  | Ok (Some (c :: n), _, _) =>
      match zf_read zf (snd item) with
      | Ok file_bytes => [((c :: n) ++ dot_pdf, file_bytes)]
      | Raise _ => []
      end
  | _ => []
  end.

Definition unmatched_of (item : Future * str) : list (str * bytes) :=
  match fst item with
  | Ok (Some (_ :: _), _, _) => []
  | Ok _ =>
      match zf_read zf (snd item) with
      | Ok file_bytes => [(snd item, file_bytes)]
      | Raise _ => []
      end
  | Raise _ => []
  end.

Definition errors_of (item : Future * str) : list str :=
  match fst item with
  | Ok _ =>
      match zf_read zf (snd item) with
      | Ok _ => []
      | Raise e => [erro_arquivo ++ snd item ++ colon_space ++ e]
      end
  | Raise e => [erro_arquivo ++ snd item ++ colon_space ++ e]
  end.

(** A future as [processamento] creates it: the entry could be read and
    the future is the call of [process_pdf] on its bytes. *)
Definition submitted (item : Future * str) : Prop :=
  exists file_bytes,
    zf_read zf (snd item) = Ok file_bytes
    /\ fst item = fst (process_pdf file_bytes).

(** The pair that [future_to_file] holds for the entry [info]. *)
Definition item_of (info : ZipInfo) : Future * str :=
  (match zf_read zf (zi_filename info) with
   | Ok file_bytes => fst (process_pdf file_bytes)
   | Raise e => Raise e
   end, zi_filename info).

Definition readable (info : ZipInfo) : Prop :=
  exists file_bytes, zf_read zf (zi_filename info) = Ok file_bytes.


(** The body of the [try] of [process_pdf] raises on the entry. *)
Definition raises (info : ZipInfo) : bool :=
  match zf_read zf (zi_filename info) with
  | Ok file_bytes =>
      match process_pdf_try file_bytes with
      | Ok _ => false
      | Raise _ => true
      end
  | Raise _ => false
  end.

End Contribution.

Definition count {A : Type} (p : A -> bool) (l : list A) : nat :=
  length (filter p l).


(** The filter of the specification: keep the records whose lowered
    company name contains a lowered term. *)
Definition keeps {env : Env} (search_terms : list str) (r : result) : bool :=
  existsb (fun term => contains (lower term) (lower (empresa r))) search_terms.

Definition cnpj_header : str := Eval cbv in utf8 "CNPJ:".
Definition acme_line : str := Eval cbv in utf8 "CNPJ: 12.345.678 - ACME LTDA".
Definition acme_ltda : str := Eval cbv in utf8 "ACME LTDA".

(** ** A small concrete library, to run the program on examples *)

Module Toy.

(** A document is its bytes read as UTF-8, pages separated by a form
    feed; the empty file cannot be read. *)
Fixpoint split_pages (l : list N) (cur : list N) : list (list N) :=
  match l with
  | [] => [rev cur]
  | b :: r => if (b =? 12)%N then rev cur :: split_pages r []
              else split_pages r (b :: cur)
  end.

Definition empty_file : str := Eval cbv in utf8 "Cannot read an empty file".

Definition pages_of (b : bytes) : Res (list page) :=
  match b with
  | [] => Raise empty_file
  | _ :: _ =>
      Ok (map (fun pg => Ok (Some (utf8_decode pg)))
            (split_pages (map Byte.to_N b) []))
  end.

Definition ascii_digit (c : char) : bool := ((48 <=? c) && (c <=? 57))%N.

Definition ascii_lower (s : str) : str :=
  map (fun c => if ((65 <=? c) && (c <=? 90))%N then (c + 32)%N else c) s.

(** The bytes of a literal. *)
Definition b (s : string) : bytes := list_byte_of_string s.

Lemma digit_ascii (c : char) : (48 <= c <= 57)%N -> ascii_digit c = true.
Proof.
  intros [H1 H2]. unfold ascii_digit.
  apply andb_true_iff. split; apply N.leb_le; assumption.
Qed.

Lemma rev_perm (A : Type) (l : list A) : Permutation (rev l) l.
Proof. symmetry. apply Permutation_rev. Qed.

End Toy.

(** Futures complete in the reverse of the submission order. *)
Definition toy_env : Env :=
  {| PdfReader := Toy.pages_of;
     pdfplumber_open := Toy.pages_of;
     isdecimal := Toy.ascii_digit;
     lower := Toy.ascii_lower;
     as_completed := @rev;
     isdecimal_ascii := Toy.digit_ascii;
     as_completed_perm := Toy.rev_perm |}.

(** ** Example documents and archives *)

Module Demo.

Definition doc_acme : bytes := Toy.b "CNPJ: 12.345.678 - ACME LTDA
Diagnóstico Fiscal na Receita Federal
Situação: EM PARCELAMENTO
Diagnóstico Fiscal na Procuradoria-Geral da Fazenda Nacional
Não foram detectadas pendências/exigibilidades suspensas
".

(** Two pages; the header is on the second. *)
Definition doc_beta : bytes :=
  Toy.b "Relatório de situação fiscal" ++ [Byte.x0c]
  ++ Toy.b "CNPJ: 98.765.432 - BETA SA
Diagnóstico Fiscal na Receita Federal
EM PARCELAMENTO
Diagnóstico Fiscal na Procuradoria-Geral da Fazenda Nacional
Pendência - Parcelamento
".

(** A header whose name is blank. *)
Definition doc_blank : bytes := Toy.b "CNPJ: 12.345.678 -  ".

(** A file that cannot be read as a PDF. *)
Definition doc_corrupt : bytes := [].

Definition entry (name : string) (data : bytes) : ZipInfo :=
  {| zi_filename := utf8 name; zi_data := Ok data |}.

Definition no_batch : Batch := {| dados := acc0; zout := [] |}.

Definition run (zf : ZipFile) : Batch :=
  match @processamento toy_env zf with
  | Ok batch => batch
  | Raise _ => no_batch
  end.

(** The archive of the scenario of the specification: one report with
    the RF marker only, one with both markers, one unreadable file. *)
Definition zf_scenario : ZipFile :=
  [entry "a.pdf" doc_acme; entry "B.PDF" doc_beta; entry "c.pdf" doc_corrupt].

Definition batch_scenario : Batch := Eval vm_compute in run zf_scenario.

(** A larger archive: a non-PDF entry, a blank name, and the first
    report a second time. *)
Definition zf_demo : ZipFile :=
  [entry "a.pdf" doc_acme; entry "notas.txt" (Toy.b "x");
   entry "B.PDF" doc_beta; entry "c.pdf" doc_corrupt;
   entry "d.pdf" doc_blank; entry "e.pdf" doc_acme].

Definition batch_demo : Batch := Eval vm_compute in run zf_demo.



Definition acme : str := Eval cbv in utf8 "acme".

(** What follows the header line on the page of the specification's
    example. *)
Definition header_post : str := Eval cbv in utf8 "...".

(** A page whose header is broken over two lines: the name stands on
    the next line, between blanks, and its line ends in CR LF. *)
Definition page_wrapped : str :=
  Eval cbv in
    utf8 "CNPJ: 12.345.678 - " ++ [newline; 32%N] ++ acme_ltda
      ++ [32%N; 13%N; newline] ++ utf8 "fim".

(** What group 2 takes of it. *)
Definition name_wrapped : str := Eval cbv in acme_ltda ++ [32%N; 13%N].

(** A line that starts a header and does not finish it. *)
Definition pre_cnpj : str := Eval cbv in utf8 "CNPJ: sem numero" ++ [newline].

End Demo.

(** ** The search box of [processamento] *)

Definition nonempty {A : Type} (l : list A) : bool :=
  match l with
  | [] => false
  | _ :: _ => true
  end.

(** The class [[,|\n]]: a comma, a vertical bar or a newline. *)
Definition is_separator (c : char) : bool :=
  ((c =? 44) || (c =? 124) || (c =? 10))%N.

(** [re.split] on a pattern that matches exactly one character of a
    class: the pieces between the separators, empty ones included. *)
Fixpoint re_split (p : char -> bool) (s : str) : list str :=
  match s with
  | [] => [[]]
  | c :: s' =>
      if p c then [] :: re_split p s'
      else match re_split p s' with
           | piece :: rest => (c :: piece) :: rest
           | [] => [[c]]
           end
  end.

(** A non-empty string with no white space at either end. *)
Definition trimmed (s : str) : bool :=
  match s with
  | [] => false
  | c :: _ => negb (isspace c) && negb (isspace (last s c))
  end.

Definition no_separator (s : str) : bool :=
  forallb (fun c => negb (is_separator c)) s.

(** Lines 164 to 167 of [processamento]. *)
Definition parse_search_terms (search_input : str) : list str :=
  if nonempty search_input then
    let terms := re_split is_separator search_input in
    map strip (filter (fun term => nonempty (strip term)) terms)
  else [].

(** [sep.join(l)] *)
Fixpoint join (sep : str) (l : list str) : str :=
  match l with
  | [] => []
  | a :: rest =>
      match rest with
      | [] => a
      | _ :: _ => a ++ sep ++ join sep rest
      end
  end.

Definition comma_space : str := Eval cbv in utf8 ", ".

(** ** The dashboard page *)

Definition sim : str := Eval cbv in utf8 "Sim".
Definition nao : str := Eval cbv in utf8 "Não".
Definition todos : str := Eval cbv in utf8 "Todos".
Definition selecione : str := Eval cbv in utf8 "(Selecione)".

(** ['Sim' if b else 'Não'] *)
Definition sim_nao (b : bool) : str := if b then sim else nao.

(** One row of the data frame. *)
Record Row : Type := {
  Empresa : str;
  Parcelamento_RF : str;
  Parcelamento_PGFN : str
}.

(** The data frame built from [all_results]. *)
Definition dataframe (all_results : list result) : list Row :=
  map (fun r => {| Empresa := empresa r;
                   Parcelamento_RF := sim_nao (rf r);
                   Parcelamento_PGFN := sim_nao (pgfn r) |}) all_results.

(** [Series.unique()]: the values in the order of their first
    appearance. *)
Fixpoint unique (l : list str) : list str :=
  match l with
  | [] => []
  | x :: l' => x :: filter (fun y => negb (str_eqb y x)) (unique l')
  end.

(** [a <= b] on [str]: code point by code point. *)
Fixpoint str_leb (a b : str) : bool :=
  match a, b with
  | [], _ => true
  | _ :: _, [] => false
  | x :: a', y :: b' =>
      if (x <? y)%N then true
      else if (x =? y)%N then str_leb a' b'
      else false
  end.

Fixpoint insert_sorted (x : str) (l : list str) : list str :=
  match l with
  | [] => [x]
  | y :: l' => if str_leb x y then x :: l else y :: insert_sorted x l'
  end.

(** [sorted(l)] *)
Fixpoint sorted (l : list str) : list str :=
  match l with
  | [] => []
  | x :: l' => insert_sorted x (sorted l')
  end.

(** [sorted(df['Empresa'].unique())] *)
Definition empresas (df : list Row) : list str :=
  sorted (unique (map Empresa df)).

(** The loop over [matched_files] that stops at the first file of the
    wanted name. *)
Fixpoint find_pdf (matched_files : list (str * bytes)) (nome_pdf : str)
  : option bytes :=
  match matched_files with
  | [] => None
  | (fname, fbytes) :: rest =>
      if str_eqb fname nome_pdf then Some fbytes else find_pdf rest nome_pdf
  end.

(** What the page shows for the selected company. *)
Inductive download : Type :=
| Nothing                               (* nothing selected *)
| Baixar (nome_pdf : str) (data : bytes) (* the download button *)
| Nao_encontrado.                       (* "PDF não encontrado para esta empresa." *)

(** Lines 34 to 51 of the dashboard. *)
Definition buscar_pdf (matched_files : list (str * bytes))
    (empresa_selecionada : str) : download :=
  if nonempty empresa_selecionada && negb (str_eqb empresa_selecionada selecione)
  then
    let nome_pdf := empresa_selecionada ++ dot_pdf in
    match find_pdf matched_files nome_pdf with
    | Some (b :: data) => Baixar nome_pdf (b :: data)
    | _ => Nao_encontrado
    end
  else Nothing.

(** [x in l] *)
Definition isin (x : str) (l : list str) : bool := existsb (str_eqb x) l.

(** Lines 66 to 70 of the dashboard. *)
Definition aplicar_filtros (df : list Row) (filtro_empresas : list str)
    (status_rf status_pgfn : str) : list Row :=
  let df_filtrado := filter (fun row => isin (Empresa row) filtro_empresas) df in
  let df_filtrado :=
    if negb (str_eqb status_rf todos)
    then filter (fun row => str_eqb (Parcelamento_RF row) status_rf) df_filtrado
    else df_filtrado in
  let df_filtrado :=
    if negb (str_eqb status_pgfn todos)
    then filter (fun row => str_eqb (Parcelamento_PGFN row) status_pgfn) df_filtrado
    else df_filtrado in
  df_filtrado.

Record KPIs : Type := {
  total_empresas : nat;
  rf_sim : nat;
  pgfn_sim : nat;
  ambos_sim : nat
}.

(** Lines 74 to 77 of the dashboard. *)
Definition kpis (df_filtrado : list Row) : KPIs :=
  {| total_empresas := length df_filtrado;
     rf_sim := count (fun row => str_eqb (Parcelamento_RF row) sim) df_filtrado;
     pgfn_sim := count (fun row => str_eqb (Parcelamento_PGFN row) sim) df_filtrado;
     ambos_sim :=
       count (fun row => str_eqb (Parcelamento_RF row) sim
                         && str_eqb (Parcelamento_PGFN row) sim) df_filtrado |}.

(** ** What [processamento] shows *)

(** What the page puts on the screen after a batch, lines 213 to 231. *)
Inductive tela : Type :=
| Tabela (df : list Row)   (* the table of the filtered results *)
| Aviso (msg : str)        (* the warning that no company was found *)
| Todos (df : list Row).   (* "Todos os Resultados" and the full table *)

Definition nenhuma_empresa : str :=
  Eval cbv in utf8 "Nenhuma empresa encontrada com os termos: ".

Definition exibir {env : Env} (all_results : list result)
    (search_terms : list str) : tela :=
  if nonempty search_terms then
    let filtered_results := filter_results all_results search_terms in
    if nonempty filtered_results then Tabela (dataframe filtered_results)
    else Aviso (nenhuma_empresa ++ join comma_space search_terms)
  else Todos (dataframe all_results).

(** One page of [extract_text_from_bytes]: its text and a newline. *)
Definition page_text (t : option str) : str := or_empty t ++ [newline].

(** [name.lower().endswith('.pdf')] *)
Definition pdf_name {env : Env} (name : str) : bool :=
  endswith (lower name) dot_pdf.

(** ** More example data *)

Module Demo2.

(** A search text with the three separators. *)
Definition search_text : str :=
  Eval cbv in utf8 " acme , beta|gama" ++ [10%N].

Definition beta : str := Eval cbv in utf8 "beta".
Definition beta_sa : str := Eval cbv in utf8 "BETA SA".
Definition zeta : str := Eval cbv in utf8 "zeta".

(** The pages of [Demo.doc_beta] as the small library reads them. *)
Definition beta_pages : list (option str) :=
  Eval vm_compute in
    match Toy.pages_of Demo.doc_beta with
    | Ok pages =>
        map (fun pg : page => match pg with Ok t => t | Raise _ => None end) pages
    | Raise _ => []
    end.

(** The text of [Demo.doc_acme]. *)
Definition acme_text : str :=
  Eval vm_compute in
    match @extract_text_from_bytes toy_env Demo.doc_acme with
    | Ok text => text
    | Raise _ => []
    end.

(** [Demo.zf_demo] without the entry that is not a PDF. *)
Definition zf_only_pdfs : ZipFile :=
  [Demo.entry "a.pdf" Demo.doc_acme; Demo.entry "B.PDF" Demo.doc_beta;
   Demo.entry "c.pdf" Demo.doc_corrupt; Demo.entry "d.pdf" Demo.doc_blank;
   Demo.entry "e.pdf" Demo.doc_acme].

Definition record_beta : result :=
  {| empresa := beta_sa; rf := true; pgfn := true; filename := utf8 "B.PDF" |}.

Definition record_acme_e : result :=
  {| empresa := acme_ltda; rf := true; pgfn := false; filename := utf8 "e.pdf" |}.

Definition record_acme_a : result :=
  {| empresa := acme_ltda; rf := true; pgfn := false; filename := utf8 "a.pdf" |}.

End Demo2.

(** ** The company name, stated without the matcher *)

(** The end of a line: the end of the text or a newline. *)
Definition line_end (s : str) : Prop := s = [] \/ exists s', s = newline :: s'.

(** Ten characters DD.DDD.DDD. *)
Definition digits_233 {env : Env} (d : str) : Prop :=
  exists a1 a2 b1 b2 b3 c1 c2 c3,
    d = [a1; a2; dot; b1; b2; b3; dot; c1; c2; c3]
    /\ forallb isdecimal [a1; a2; b1; b2; b3; c1; c2; c3] = true.

(** What group 2 takes of the text [s] that follows the dash: after the
    blanks [w3], the non-empty text [name] that runs to the end of its
    line.  [w3] is the longest run of blanks that leaves a character
    other than a newline next: after any longer one the line ends. *)
Definition cnpj_name (s name : str) : Prop :=
  exists w3 rest,
    s = w3 ++ name ++ rest
    /\ forallb isspace w3 = true
    /\ name <> [] /\ forallb not_newline name = true /\ line_end rest
    /\ forall w' s', s = w' ++ s' -> forallb isspace w' = true ->
                     length w3 < length w' -> line_end s'.

(** The header after its blanks: DD.DDD.DDD, blanks, a dash, and the
    name. *)
Definition cnpj_body {env : Env} (s name : str) : Prop :=
  exists d w2 s3,
    s = d ++ w2 ++ dash :: s3
    /\ digits_233 d /\ forallb isspace w2 = true /\ cnpj_name s3 name.

(** The match of the pattern that starts at offset [k] of [text], and
    the text [name] of its group 2.  The blanks [w1] after "CNPJ:" are
    the longest run of blanks after which the header goes on. *)
Definition cnpj_match_at {env : Env} (text : str) (k : nat) (name : str) : Prop :=
  exists pre w1 s1,
    text = pre ++ cnpj_header ++ w1 ++ s1
    /\ length pre = k
    /\ forallb isspace w1 = true
    /\ cnpj_body s1 name
    /\ forall w' s', w1 ++ s1 = w' ++ s' -> forallb isspace w' = true ->
                     length w1 < length w' -> forall n, ~ cnpj_body s' n.

(** The first match of [text]: no header starts before it. *)
Definition cnpj_match_first {env : Env} (text name : str) : Prop :=
  exists k, cnpj_match_at text k name
            /\ forall j n, cnpj_line_at text j n -> k <= j.

(** [res] is [name] without the white space around it. *)
Definition trim_of (name res : str) : Prop :=
  exists ws1 ws2,
    name = ws1 ++ res ++ ws2
    /\ forallb isspace ws1 = true /\ forallb isspace ws2 = true
    /\ (res = [] \/ trimmed res = true).

(** A page of which no header of the pattern can be made. *)
Definition no_match {env : Env} (pg : page) : Prop :=
  exists t, pg = Ok t /\ forall k n, ~ cnpj_line_at (or_empty t) k n.

(** The pattern in three parts: "CNPJ:" and its blanks, the digits up
    to the dash, and group 2 after its blanks. *)
Definition cnpj_tail_re : list Re.node :=
  [Re.Mark 2; Re.Set_ not_newline; Re.Star not_newline; Re.Mark 3].

Definition cnpj_digits_re {env : Env} : list Re.node :=
  [Re.Mark 0;
   Re.Set_ isdecimal; Re.Set_ isdecimal; Re.Lit dot;
   Re.Set_ isdecimal; Re.Set_ isdecimal; Re.Set_ isdecimal; Re.Lit dot;
   Re.Set_ isdecimal; Re.Set_ isdecimal; Re.Set_ isdecimal;
   Re.Mark 1;
   Re.Star isspace; Re.Lit dash].

Definition cnpj_body_re {env : Env} : list Re.node :=
  cnpj_digits_re ++ Re.Star isspace :: cnpj_tail_re.

(** The matcher fails at every offset before [n]. *)
Definition no_match_before {env : Env} (text : str) (n : nat) : bool :=
  forallb (fun j =>
             match Re.run cnpj_re (skipn j text) j [] with
             | Some _ => false
             | None => true
             end)
    (seq 0 n).

Example rf_title_codepoints :
  length rf_title = 37%nat /\ nth 5 rf_title 0%N = 243%N.
Proof. split; reflexivity. Qed.

(** ** Facts about the string operations *)

Lemma startswith_iff (s p : str) :
  startswith s p = true <-> exists t, s = p ++ t.
Proof.
  revert s; induction p as [|a p IH]; intros s.
  - simpl. split; [intros _; exists s; reflexivity | reflexivity].
  - destruct s as [|b s]; simpl.
    + split; [discriminate | intros [t H]; discriminate].
    + rewrite andb_true_iff, N.eqb_eq, IH. split.
      * intros [-> [t ->]]. eauto.
      * intros [t H]. injection H as -> ->. eauto.
Qed.

Lemma contains_eq (sub s : str) :
  contains sub s =
  if startswith s sub then true
  else match s with [] => false | _ :: s' => contains sub s' end.
Proof. destruct s; reflexivity. Qed.

Lemma find_from_eq (s sub : str) (i : Z) :
  find_from s sub i =
  if startswith s sub then i
  else match s with [] => (-1)%Z | _ :: s' => find_from s' sub (i + 1) end.
Proof. destruct s; reflexivity. Qed.

Lemma contains_app (sub u v : str) : contains sub (u ++ sub ++ v) = true.
Proof.
  induction u as [|a u IH]; rewrite contains_eq.
  - simpl. replace (startswith (sub ++ v) sub) with true; [reflexivity|].
    symmetry. apply startswith_iff. eauto.
  - simpl app. destruct (startswith _ _); [reflexivity | exact IH].
Qed.

Lemma contains_iff (sub s : str) : contains sub s = true <-> occurs sub s.
Proof.
  split.
  - induction s as [|a s IH]; rewrite contains_eq;
      destruct (startswith _ sub) eqn:Hs.
    + intros _. apply startswith_iff in Hs as [t ->].
      exists 0, [], t. split; reflexivity.
    + discriminate.
    + intros _. apply startswith_iff in Hs as [t ->].
      exists 0, [], t. split; reflexivity.
    + intros H. destruct (IH H) as (k & u & v & -> & Hk).
      exists (S k), (a :: u), v. split; [reflexivity | simpl; lia].
  - intros (k & u & v & -> & _). apply contains_app.
Qed.

(** [find] returns [-1] exactly when there is no occurrence, and the
    offset of the first occurrence otherwise. *)
Lemma find_from_spec (sub s : str) (i : Z) :
  (contains sub s = false /\ find_from s sub i = (-1)%Z)
  \/ (exists k, first_occ sub s k /\ find_from s sub i = (i + Z.of_nat k)%Z).
Proof.
  revert i; induction s as [|a s IH]; intros i;
    rewrite contains_eq, find_from_eq; destruct (startswith _ sub) eqn:Hs.
  - right. apply startswith_iff in Hs as [t Ht]. exists 0. split; [|lia].
    split; [exists [], t; auto | intros; lia].
  - left; auto.
  - right. apply startswith_iff in Hs as [t Ht]. exists 0. split; [|lia].
    split; [exists [], t; auto | intros; lia].
  - destruct (IH (i + 1)%Z) as [[Hc Hf] | (k & [Hk Hmin] & Hf)].
    + left; auto.
    + right. exists (S k). split; [|lia].
      destruct Hk as (u & v & -> & Hu). split.
      * exists (a :: u), v. split; [reflexivity | simpl; lia].
      * intros j (u' & v' & Heq & Hj). destruct u' as [|b u'].
        -- simpl in Heq.
           assert (startswith (a :: u ++ sub ++ v) sub = true)
             by (apply startswith_iff; eauto).
           congruence.
        -- simpl in Heq. injection Heq as _ Heq.
           assert (k <= length u') by (apply Hmin; exists u', v'; auto).
           simpl in Hj. lia.
Qed.

Lemma find_absent (sub s : str) :
  ~ occurs sub s -> find s sub = (-1)%Z.
Proof.
  intros H. unfold find.
  destruct (find_from_spec sub s 0) as [[_ Hf] | (k & [Hk _] & _)]; [exact Hf|].
  exfalso. apply H. exists k. exact Hk.
Qed.

Lemma find_first (sub s : str) (k : nat) :
  first_occ sub s k -> find s sub = Z.of_nat k.
Proof.
  intros [Hk Hmin]. unfold find.
  destruct (find_from_spec sub s 0) as [[Hc _] | (k' & [Hk' Hmin'] & Hf)].
  - assert (contains sub s = true) by (apply contains_iff; exists k; exact Hk).
    congruence.
  - specialize (Hmin _ Hk'). specialize (Hmin' _ Hk). rewrite Hf. lia.
Qed.

Lemma find_found (sub s : str) :
  found (find s sub) = true -> exists k, first_occ sub s k /\ find s sub = Z.of_nat k.
Proof.
  unfold found, find.
  destruct (find_from_spec sub s 0) as [[_ Hf] | (k & Hk & Hf)].
  - rewrite Hf. discriminate.
  - intros _. exists k. split; [exact Hk | rewrite Hf; lia].
Qed.

Lemma occurs_at_bound (sub s : str) (k : nat) :
  occurs_at sub s k -> k + length sub <= length s.
Proof.
  intros (u & v & -> & <-). rewrite !length_app. lia.
Qed.

Lemma slice_nat (s : str) (r p : nat) :
  r <= length s -> p <= length s ->
  slice s (Z.of_nat r) (Z.of_nat p) = firstn (p - r) (skipn r s).
Proof.
  intros Hr Hp. unfold slice, adjust_index.
  destruct (Z.ltb_spec (Z.of_nat r) 0); [lia|].
  destruct (Z.ltb_spec (Z.of_nat p) 0); [lia|].
  rewrite !Z.min_l by lia.
  replace (Z.to_nat (Z.of_nat p - Z.of_nat r)) with (p - r) by lia.
  rewrite Nat2Z.id. reflexivity.
Qed.

Lemma slice_from_nat (s : str) (p : nat) :
  p <= length s -> slice_from s (Z.of_nat p) = skipn p s.
Proof.
  intros Hp. unfold slice_from. rewrite slice_nat by lia.
  apply firstn_all2. rewrite length_skipn. lia.
Qed.

(** An occurrence that lies inside the window survives the slice. *)
Lemma contains_window (sub X Y : str) (r p : nat) :
  r <= length X -> length X + length sub <= p ->
  contains sub (firstn (p - r) (skipn r (X ++ sub ++ Y))) = true.
Proof.
  intros Hr Hp.
  rewrite skipn_app. replace (r - length X) with 0 by lia. simpl skipn at 2.
  rewrite firstn_app, length_skipn.
  rewrite (firstn_all2 (skipn r X)) by (rewrite length_skipn; lia).
  rewrite firstn_app.
  rewrite (firstn_all2 sub) by lia.
  apply contains_app.
Qed.

Lemma contains_suffix (sub X Y : str) (p : nat) :
  p <= length X -> contains sub (skipn p (X ++ sub ++ Y)) = true.
Proof.
  intros Hp. rewrite skipn_app. replace (p - length X) with 0 by lia.
  simpl skipn at 2. apply contains_app.
Qed.

(** ** The classifier *)

Lemma redundant_check (x a b : bool) :
  (if negb x && a && b then false else x) = x.
Proof. destruct x, a, b; reflexivity. Qed.

Lemma redundant_check1 (x a : bool) :
  (if negb x && a then false else x) = x.
Proof. destruct x, a; reflexivity. Qed.

Lemma analyze_text_primary (text : str) :
  analyze_text text = classify_primary text.
Proof.
  unfold analyze_text, classify_primary, rf_section_of, pgfn_section_of.
  cbv zeta. rewrite redundant_check, redundant_check1. reflexivity.
Qed.

Lemma contains_nil_false (sub : str) : sub <> [] -> contains sub [] = false.
Proof. destruct sub; [congruence | reflexivity]. Qed.

Lemma find_le_occurrence (sub s : str) (k : nat) :
  occurs_at sub s k -> (0 <= find s sub <= Z.of_nat k)%Z.
Proof.
  intros Hk. unfold find.
  destruct (find_from_spec sub s 0) as [[Hc _] | (k' & [_ Hmin] & Hf)].
  - assert (contains sub s = true) by (apply contains_iff; exists k; exact Hk).
    congruence.
  - specialize (Hmin _ Hk). lia.
Qed.

(** Each text falls in exactly one of the cases the classifier tells
    apart. *)
Lemma header_cases (text : str) :
  (exists r p, first_occ rf_title text r /\ first_occ pgfn_title text p /\ r < p)
  \/ ~ occurs rf_title text
  \/ ~ occurs pgfn_title text
  \/ (exists r p, first_occ rf_title text r /\ first_occ pgfn_title text p /\ p <= r).
Proof.
  destruct (find_from_spec rf_title text 0) as [[Hr _] | (r & Hr & _)].
  { right; left. intros H. apply contains_iff in H. congruence. }
  destruct (find_from_spec pgfn_title text 0) as [[Hp _] | (p & Hp & _)].
  { right; right; left. intros H. apply contains_iff in H. congruence. }
  destruct (Nat.lt_ge_cases r p); [left | do 3 right]; eauto.
Qed.

Lemma rf_section_out_of_order (text : str) :
  ~ occurs rf_title text \/ ~ occurs pgfn_title text
  \/ (exists r p, first_occ rf_title text r /\ first_occ pgfn_title text p /\ p <= r) ->
  rf_section_of text = [].
Proof.
  unfold rf_section_of. cbv zeta. intros [H | [H | (r & p & Hr & Hp & Hle)]].
  - rewrite (find_absent H). reflexivity.
  - rewrite (find_absent H), andb_false_r. reflexivity.
  - rewrite (find_first Hr), (find_first Hp).
    destruct (found _ && found _); [|reflexivity].
    pose proof (occurs_at_bound (proj1 Hr)). pose proof (occurs_at_bound (proj1 Hp)).
    rewrite slice_nat by lia. replace (p - r) with 0 by lia. reflexivity.
Qed.

(** The copy of the classifier inlined in [process_pdf] runs on the text
    of [extract_text_from_bytes]. *)
Lemma process_pdf_try_classifies (env : Env) (file_bytes : bytes)
    (emp : option str) (rf_parc pgfn_parc : bool) :
  process_pdf_try file_bytes = Ok (emp, rf_parc, pgfn_parc) ->
  exists text, extract_text_from_bytes file_bytes = Ok text
               /\ analyze_text text = (rf_parc, pgfn_parc).
Proof.
  unfold process_pdf_try, extract_text_from_bytes.
  destruct (PdfReader file_bytes) as [pages|]; [cbn [bind] | discriminate].
  destruct (text_loop pages []) as [text|]; [cbn [bind] | discriminate].
  destruct (pdfplumber_open file_bytes) as [pdf|]; [cbn [bind] | discriminate].
  destruct (empresa_loop (firstn 2 pdf) None) as [e|]; [cbn [bind] | discriminate].
  intros H. injection H as _ <- <-. exists text. split; reflexivity.
Qed.

(** C3. The secondary checks of the classifier never change the
    outcome: [analyze_text] is the classifier that looks at the two
    primary markers only, and the copy inlined in [process_pdf] returns
    the same two flags for the text it extracted. *)
Theorem secondary_checks_are_noops :
  (forall text, analyze_text text = classify_primary text)
  /\ (forall (env : Env) (file_bytes : bytes),
        process_pdf_try file_bytes =
        (pages <- PdfReader file_bytes ;;
         text <- text_loop pages [] ;;
         pdf <- pdfplumber_open file_bytes ;;
         empresa <- empresa_loop (firstn 2 pdf) None ;;
         Ok (empresa,
             contains em_parcelamento (rf_section_of text),
             contains pendencia_parcelamento (pgfn_section_of text)))).
Proof.
  split; [exact analyze_text_primary|].
  intros env file_bytes. unfold process_pdf_try.
  destruct (PdfReader file_bytes) as [pages|]; [cbn [bind] | reflexivity].
  destruct (text_loop pages []) as [text|]; [cbn [bind] | reflexivity].
  destruct (pdfplumber_open file_bytes) as [pdf|]; [cbn [bind] | reflexivity].
  destruct (empresa_loop (firstn 2 pdf) None) as [emp|]; [cbn [bind] | reflexivity].
  rewrite redundant_check, redundant_check1. reflexivity.
Qed.

(** C4. The RF flag can only be set when both section headers occur and
    the first RF header comes before the first PGFN header.  When a
    header is missing, or the first PGFN header is not after the first
    RF header, the RF section is empty and the RF flag is false; a text
    with neither header is classified (false, false).  The flags that
    [process_pdf] computes inline are those of [analyze_text] on the
    extracted text. *)
Theorem rf_needs_both_headers_in_order (text : str) :
  (fst (analyze_text text) = true ->
     exists r p, first_occ rf_title text r /\ first_occ pgfn_title text p /\ r < p)
  /\ (~ occurs rf_title text \/ ~ occurs pgfn_title text
      \/ (exists r p, first_occ rf_title text r /\ first_occ pgfn_title text p /\ p <= r) ->
      rf_section_of text = [] /\ fst (analyze_text text) = false)
  /\ (~ occurs rf_title text -> ~ occurs pgfn_title text ->
      analyze_text text = (false, false))
  /\ (forall (env : Env) file_bytes emp rf_parc pgfn_parc,
        extract_text_from_bytes file_bytes = Ok text ->
        process_pdf_try file_bytes = Ok (emp, rf_parc, pgfn_parc) ->
        (rf_parc, pgfn_parc) = analyze_text text).
Proof.
  assert (Hpdf : forall (env : Env) file_bytes emp rf_parc pgfn_parc,
        extract_text_from_bytes file_bytes = Ok text ->
        process_pdf_try file_bytes = Ok (emp, rf_parc, pgfn_parc) ->
        (rf_parc, pgfn_parc) = analyze_text text).
  { intros env b emp r p Ht Hp.
    destruct (process_pdf_try_classifies _ _ Hp) as (text' & Ht' & <-).
    congruence. }
  assert (Hout : ~ occurs rf_title text \/ ~ occurs pgfn_title text
      \/ (exists r p, first_occ rf_title text r /\ first_occ pgfn_title text p /\ p <= r) ->
      rf_section_of text = [] /\ fst (analyze_text text) = false).
  { intros H. pose proof (rf_section_out_of_order H) as Hs. split; [exact Hs|].
    rewrite analyze_text_primary. unfold classify_primary. simpl.
    rewrite Hs. reflexivity. }
  split; [|split; [|split]].
  - intros Ht. destruct (header_cases text) as [H | H]; [exact H|].
    destruct (Hout H) as [_ Hf]. congruence.
  - exact Hout.
  - intros Hr Hp. rewrite analyze_text_primary. unfold classify_primary.
    rewrite (rf_section_out_of_order (or_introl Hr)).
    unfold pgfn_section_of. cbv zeta. rewrite (find_absent Hp). reflexivity.
  - exact Hpdf.
Qed.

Lemma template_analyzed (A B C D E : str) :
  (forall k, occurs_at pgfn_title (template A B C D E) k ->
             length (A ++ rf_title ++ B ++ em_parcelamento) <= k) ->
  analyze_text (template A B C D E) = (true, true).
Proof.
  intros Hfirst. set (text := template A B C D E) in *.
  assert (Hrf : occurs_at rf_title text (length A)).
  { exists A, (B ++ em_parcelamento ++ C ++ pgfn_title ++ D
                 ++ pendencia_parcelamento ++ E). split; reflexivity. }
  assert (Hpg : occurs_at pgfn_title text
                  (length (A ++ rf_title ++ B ++ em_parcelamento ++ C))).
  { exists (A ++ rf_title ++ B ++ em_parcelamento ++ C),
      (D ++ pendencia_parcelamento ++ E). split; [|reflexivity].
    unfold text, template. rewrite <- !app_assoc. reflexivity. }
  assert (Fr : found (find text rf_title) = true).
  { pose proof (find_le_occurrence Hrf). unfold found.
    destruct (Z.eqb_spec (find text rf_title) (-1)); [lia | reflexivity]. }
  assert (Fp : found (find text pgfn_title) = true).
  { pose proof (find_le_occurrence Hpg). unfold found.
    destruct (Z.eqb_spec (find text pgfn_title) (-1)); [lia | reflexivity]. }
  destruct (find_found _ _ Fr) as (r & [Hr Hrmin] & Er).
  destruct (find_found _ _ Fp) as (p & [Hp Hpmin] & Ep).
  pose proof (Hrmin _ Hrf) as Lr. pose proof (Hpmin _ Hpg) as Lp.
  pose proof (Hfirst _ Hp) as Gp.
  pose proof (occurs_at_bound Hr) as Br. pose proof (occurs_at_bound Hp) as Bp.
  rewrite !length_app in *.
  rewrite analyze_text_primary. unfold classify_primary, rf_section_of, pgfn_section_of.
  cbv zeta. rewrite Fr, Fp. simpl andb. cbv iota. rewrite Er, Ep.
  rewrite slice_nat, slice_from_nat by lia.
  f_equal.
  - replace text with ((A ++ rf_title ++ B) ++ em_parcelamento
        ++ (C ++ pgfn_title ++ D ++ pendencia_parcelamento ++ E))
      by (unfold text, template; rewrite <- !app_assoc; reflexivity).
    apply contains_window; rewrite !length_app; lia.
  - replace text with ((A ++ rf_title ++ B ++ em_parcelamento ++ C ++ pgfn_title ++ D)
        ++ pendencia_parcelamento ++ E)
      by (unfold text, template; rewrite <- !app_assoc; reflexivity).
    apply contains_suffix; rewrite !length_app; lia.
Qed.

(** C5, as the code has it.  A text in which the four literals occur in
    the order RF header, "EM PARCELAMENTO", PGFN header,
    "Pendência - Parcelamento" is classified (true, true) provided no
    PGFN header starts before the end of that "EM PARCELAMENTO"; and
    [process_pdf] computes the same two flags inline when that text is
    what it extracted. *)
Theorem template_classified (A B C D E : str) :
  (forall k, occurs_at pgfn_title (template A B C D E) k ->
             length (A ++ rf_title ++ B ++ em_parcelamento) <= k) ->
  analyze_text (template A B C D E) = (true, true)
  /\ forall (env : Env) file_bytes emp rf_parc pgfn_parc,
       extract_text_from_bytes file_bytes = Ok (template A B C D E) ->
       process_pdf_try file_bytes = Ok (emp, rf_parc, pgfn_parc) ->
       (rf_parc, pgfn_parc) = (true, true).
Proof.
  intros Hfirst. pose proof (template_analyzed A B C D E Hfirst) as Ha.
  split; [exact Ha|].
  intros env b emp r p Ht Hp.
  destruct (process_pdf_try_classifies _ _ Hp) as (text' & Ht' & <-).
  congruence.
Qed.



Lemma window_exact (X Y Z : str) (a b : nat) :
  a = length X -> b = a + length Y ->
  firstn (b - a) (skipn a (X ++ Y ++ Z)) = Y.
Proof.
  intros -> ->. rewrite skipn_app, skipn_all, Nat.sub_diag. simpl.
  replace (length X + length Y - length X) with (length Y) by lia.
  rewrite firstn_app, firstn_all, Nat.sub_diag. simpl. apply app_nil_r.
Qed.

(** ** The matcher *)

Lemma run_star_eq (p : char -> bool) (re' : list Re.node) (s : str) (i : nat)
    (mk : Re.marks) :
  Re.run (Re.Star p :: re') s i mk =
  match s with
  | b :: s' =>
      if p b then
        match Re.run (Re.Star p :: re') s' (S i) mk with
        | Some r => Some r
        | None => Re.run re' s i mk
        end
      else Re.run re' s i mk
  | [] => Re.run re' s i mk
  end.
Proof. destruct s; reflexivity. Qed.

(** Soundness of the matcher along a prefix of the pattern. *)
Lemma run_app_chain (re1 re2 : list Re.node) (r : nat * Re.marks) :
  forall s i mk,
    Re.run (re1 ++ re2) s i mk = Some r ->
    chain re1 s i mk (fun s' i' mk' => Re.run re2 s' i' mk' = Some r).
Proof.
  induction re1 as [|n re1 IH]; intros s i mk; [simpl; auto|].
  destruct n as [a | p | p | m].
  - simpl. destruct s as [|b s']; [discriminate|].
    destruct (N.eqb_spec a b); [subst | discriminate].
    intros H. exists s'. split; [reflexivity | apply IH, H].
  - simpl. destruct s as [|b s']; [discriminate|].
    destruct (p b) eqn:Hp; [|discriminate].
    intros H. exists b, s'. repeat split; [exact Hp | apply IH, H].
  - change ((Re.Star p :: re1) ++ re2) with (Re.Star p :: (re1 ++ re2)).
    revert i. induction s as [|b s' IHs]; intros i; rewrite run_star_eq.
    + intros H. exists [], []. repeat split. simpl length.
      rewrite Nat.add_0_r. apply IH, H.
    + assert (Hstop : Re.run (re1 ++ re2) (b :: s') i mk = Some r ->
                      chain (Re.Star p :: re1) (b :: s') i mk
                        (fun s' i' mk' => Re.run re2 s' i' mk' = Some r)).
      { intros H. exists [], (b :: s'). repeat split. simpl length.
        rewrite Nat.add_0_r. apply IH, H. }
      destruct (p b) eqn:Hp; [|exact Hstop].
      destruct (Re.run (Re.Star p :: re1 ++ re2) s' (S i) mk) as [r0|] eqn:Hrec;
        [|exact Hstop].
      intros H. injection H as ->.
      destruct (IHs _ Hrec) as (w & s'' & E & Hw & Hc).
      exists (b :: w), s''. split; [simpl; congruence|].
      split; [simpl; rewrite Hp; exact Hw|].
      simpl length. replace (i + S (length w)) with (S i + length w) by lia.
      exact Hc.
  - simpl. intros H. apply IH, H.
Qed.

(** A star at the end of the pattern takes the whole run. *)
Lemma run_star_last (p : char -> bool) (m : nat) (s : str) :
  forall i mk,
    Re.run [Re.Star p; Re.Mark m] s i mk =
    Some (i + length (takewhile p s), (m, i + length (takewhile p s)) :: mk).
Proof.
  induction s as [|b s' IH]; intros i mk; rewrite run_star_eq.
  - simpl. rewrite Nat.add_0_r. reflexivity.
  - simpl takewhile. destruct (p b).
    + rewrite IH. simpl length.
      replace (S i + length (takewhile p s')) with (i + S (length (takewhile p s')))
        by lia. reflexivity.
    + simpl. rewrite Nat.add_0_r. reflexivity.
Qed.

Lemma takewhile_split (p : char -> bool) (s : str) :
  exists rest, s = takewhile p s ++ rest
               /\ forallb p (takewhile p s) = true
               /\ (rest = [] \/ exists c rest', rest = c :: rest' /\ p c = false).
Proof.
  induction s as [|c s' (rest & E & Hall & Hrest)]; simpl.
  - exists []. auto.
  - destruct (p c) eqn:Hp.
    + exists rest. simpl. rewrite Hp, Hall. repeat split; [congruence | exact Hrest].
    + exists (c :: s'). repeat split. right. eauto.
Qed.

(** [re.search] returns the match at the leftmost start. *)
Lemma search_from_some (re : list Re.node) (r : nat * Re.marks) :
  forall s i,
    Re.search_from re s i = Some r ->
    exists u v, s = u ++ v /\ Re.run re v (i + length u) [] = Some r
      /\ forall u' v', s = u' ++ v' -> length u' < length u ->
                       Re.run re v' (i + length u') [] = None.
Proof.
  induction s as [|c s' IH]; intros i; simpl.
  - destruct (Re.run re [] i []) as [r0|] eqn:Hr; [|discriminate].
    intros H. injection H as ->. exists [], []. simpl.
    rewrite Nat.add_0_r. repeat split; [exact Hr | intros; lia].
  - destruct (Re.run re (c :: s') i []) as [r0|] eqn:Hr.
    + intros H. injection H as ->. exists [], (c :: s'). simpl.
      rewrite Nat.add_0_r. repeat split; [exact Hr | intros; lia].
    + intros H. destruct (IH _ H) as (u & v & -> & Hv & Hleft).
      exists (c :: u), v. simpl length.
      replace (i + S (length u)) with (S i + length u) by lia.
      repeat split; [exact Hv|].
      intros u' v' E Hlt. destruct u' as [|c' u'].
      * simpl in E. subst v'. simpl. rewrite Nat.add_0_r. exact Hr.
      * simpl in E. injection E as _ E. simpl length.
        replace (i + S (length u')) with (S i + length u') by lia.
        apply Hleft; [exact E | simpl in Hlt; lia].
Qed.

Lemma search_from_none (re : list Re.node) :
  forall s i,
    Re.search_from re s i = None ->
    forall u v, s = u ++ v -> Re.run re v (i + length u) [] = None.
Proof.
  induction s as [|c s' IH]; intros i; simpl.
  - destruct (Re.run re [] i []) eqn:Hr; [discriminate|].
    intros _ u v E. symmetry in E. apply app_eq_nil in E as [-> ->].
    simpl. rewrite Nat.add_0_r. exact Hr.
  - destruct (Re.run re (c :: s') i []) eqn:Hr; [discriminate|].
    intros H u v E. destruct u as [|c' u].
    + simpl in E. subst v. simpl. rewrite Nat.add_0_r. exact Hr.
    + simpl in E. injection E as _ E. simpl length.
      replace (i + S (length u)) with (S i + length u) by lia.
      apply (IH _ H); exact E.
Qed.

Section CompanyName.

Context {env : Env}.

Lemma cnpj_re_split : cnpj_re = cnpj_head ++ [Re.Star not_newline; Re.Mark 3].
Proof. reflexivity. Qed.

(** Completeness of the matcher: a split along the pattern is found,
    whatever the star tried first. *)
Lemma chain_run (re : list Re.node) :
  forall s i mk,
    chain re s i mk (fun _ _ _ => True) -> exists r, Re.run re s i mk = Some r.
Proof.
  induction re as [|n re IH]; intros s i mk; [simpl; eauto|].
  destruct n as [a | p | p | m].
  - simpl. intros (s' & -> & H). rewrite N.eqb_refl. apply IH, H.
  - simpl. intros (b & s' & -> & Hp & H). rewrite Hp. apply IH, H.
  - intros (w & s' & -> & Hw & H). revert i H.
    induction w as [|b w IHw]; intros i H.
    + simpl length in H. rewrite Nat.add_0_r in H. apply IH in H as [r Hr].
      simpl app. rewrite run_star_eq. destruct s' as [|c s'']; [eauto|].
      destruct (p c); [|eauto].
      destruct (Re.run (Re.Star p :: re) s'' (S i) mk); eauto.
    + simpl in Hw. apply andb_true_iff in Hw as [Hb Hw].
      simpl app. rewrite run_star_eq, Hb.
      destruct (IHw Hw (S i)) as [r Hr].
      { simpl length in H.
        replace (S i + length w) with (i + S (length w)) by lia. exact H. }
      rewrite Hr. eauto.
  - simpl. intros H. apply IH, H.
Qed.

Lemma cnpj_line_run (text : str) (k : nat) (name : str) :
  cnpj_line_at text k name ->
  exists u v, text = u ++ v /\ length u = k
              /\ exists r, Re.run cnpj_re v (0 + length u) [] = Some r.
Proof.
  intros (pre & w1 & d & w2 & w3 & rest & -> & Hk & Hw1 & Hw2 & Hw3
          & (a1 & a2 & b1 & b2 & b3 & c1 & c2 & c3 & -> & Hd) & Hne & Hnl & _).
  destruct name as [|g0 g]; [congruence|].
  simpl in Hd, Hnl. rewrite !andb_true_iff in Hd. rewrite andb_true_iff in Hnl.
  destruct Hd as (Ha1 & Ha2 & Hb1 & Hb2 & Hb3 & Hc1 & Hc2 & Hc3 & _).
  destruct Hnl as [Hg0 Hg].
  exists pre. eexists. split; [reflexivity|]. split; [exact Hk|].
  apply chain_run. cbn -[Re.run].
  do 5 (eexists; split; [reflexivity|]).
  exists w1. eexists. split; [reflexivity|]. split; [exact Hw1|].
  do 2 (do 2 eexists; split; [reflexivity|]; split; [assumption|]).
  eexists; split; [reflexivity|].
  do 3 (do 2 eexists; split; [reflexivity|]; split; [assumption|]).
  eexists; split; [reflexivity|].
  do 3 (do 2 eexists; split; [reflexivity|]; split; [assumption|]).
  exists w2. eexists. split; [reflexivity|]. split; [exact Hw2|].
  eexists; split; [reflexivity|].
  exists w3. eexists. split; [reflexivity|]. split; [exact Hw3|].
  do 2 eexists; split; [reflexivity|]; split; [exact Hg0|].
  exists g, rest. auto.
Qed.

(** What [re.search] finds: the header is the leftmost one, and group 2
    is the text from the name to the end of its line. *)
Lemma cnpj_search_sound (text : str) (m : nat * Re.marks) :
  Re.search cnpj_re text = Some m ->
  exists name, Re.group text m 2 = Some name /\ cnpj_first text name.
Proof.
  unfold Re.search. intros H.
  apply search_from_some in H as (u & v & -> & Hv & Hleft).
  assert (Hmin : forall j n, cnpj_line_at (u ++ v) j n -> length u <= j).
  { intros j n Hj. destruct (cnpj_line_run Hj) as (u' & v' & E & Hu' & r & Hr).
    destruct (Nat.le_gt_cases (length u) j) as [|Hlt]; [assumption|].
    rewrite (Hleft u' v' E) in Hr by lia. discriminate. }
  rewrite cnpj_re_split in Hv. apply run_app_chain in Hv.
  cbn -[Re.run] in Hv.
  destruct Hv as (s0 & -> & s1 & -> & s2 & -> & s3 & -> & s4 & -> &
                  w1 & s5 & -> & Hw1 &
                  a1 & s6 & -> & Ha1 & a2 & s7 & -> & Ha2 & s8 & -> &
                  b1 & s9 & -> & Hb1 & b2 & s10 & -> & Hb2 &
                  b3 & s11 & -> & Hb3 & s12 & -> &
                  c1 & s13 & -> & Hc1 & c2 & s14 & -> & Hc2 &
                  c3 & s15 & -> & Hc3 &
                  w2 & s16 & -> & Hw2 & s17 & -> & w3 & s18 & -> & Hw3 &
                  g0 & s19 & -> & Hg0 & Hlast).
  rewrite run_star_last in Hlast. injection Hlast as <-.
  destruct (takewhile_split not_newline s19) as (rest & E & Hall & Hrest).
  set (tw := takewhile not_newline s19) in *.
  set (X := u ++ utf8 "CNPJ:" ++ w1 ++ [a1; a2; dot; b1; b2; b3; dot; c1; c2; c3]
              ++ w2 ++ [dash] ++ w3).
  match goal with
  | |- context [Re.group ?t _ _] =>
      assert (Etext : t = X ++ (g0 :: tw) ++ rest)
  end.
  { unfold X. rewrite E at 1. cbn. rewrite <- !app_assoc. cbn.
    do 5 f_equal. rewrite <- !app_assoc. cbn. do 10 f_equal.
    rewrite <- !app_assoc. reflexivity. }
  rewrite Etext in *. exists (g0 :: tw). split.
  - unfold Re.group. change (2 * 2 - 2) with 2. change (2 * 2 - 1) with 3.
    cbn [snd Re.lookup Nat.eqb]. f_equal. apply window_exact.
    + unfold X. rewrite !length_app. simpl. lia.
    + simpl. lia.
  - exists (length u). split; [|exact Hmin].
    exists u, w1, [a1; a2; dot; b1; b2; b3; dot; c1; c2; c3], w2, w3, rest.
    split; [unfold X; rewrite <- !app_assoc; reflexivity|].
    repeat split; try assumption.
    + exists a1, a2, b1, b2, b3, c1, c2, c3. split; [reflexivity|].
      simpl. rewrite Ha1, Ha2, Hb1, Hb2, Hb3, Hc1, Hc2, Hc3. reflexivity.
    + discriminate.
    + simpl. rewrite Hg0. exact Hall.
    + destruct Hrest as [-> | (c & rest' & -> & Hc)]; [left; reflexivity|].
      right. exists rest'. unfold not_newline in Hc.
      apply negb_false_iff, N.eqb_eq in Hc. subst c. reflexivity.
Qed.

Lemma cnpj_search_none (text : str) :
  Re.search cnpj_re text = None -> forall k name, ~ cnpj_line_at text k name.
Proof.
  unfold Re.search. intros H k name Hk.
  destruct (cnpj_line_run Hk) as (u & v & E & _ & r & Hr).
  rewrite (@search_from_none _ _ _ H u v E) in Hr. discriminate.
Qed.

Lemma search_from_cons (re : list Re.node) (c : char) (s : str) (i : nat) :
  Re.search_from re (c :: s) i =
  match Re.run re (c :: s) i [] with
  | Some r => Some r
  | None => Re.search_from re s (S i)
  end.
Proof. reflexivity. Qed.

Lemma search_from_hit (re : list Re.node) (s : str) (i : nat) (r : nat * Re.marks) :
  Re.run re s i [] = Some r -> Re.search_from re s i = Some r.
Proof. intros H. destruct s; simpl; rewrite H; reflexivity. Qed.

Lemma acme_run (post : str) (i : nat) :
  Re.run cnpj_re (acme_line ++ newline :: post) i []
  = Some (i + 28, [(3, i + 28); (2, i + 19); (1, i + 16); (0, i + 6)]).
Proof.
  cbn -[isdecimal Nat.add].
  rewrite (@isdecimal_ascii _ 49%N), (@isdecimal_ascii _ 50%N),
    (@isdecimal_ascii _ 51%N), (@isdecimal_ascii _ 52%N),
    (@isdecimal_ascii _ 53%N), (@isdecimal_ascii _ 54%N),
    (@isdecimal_ascii _ 55%N), (@isdecimal_ascii _ 56%N) by lia.
  cbn. repeat f_equal; lia.
Qed.

Lemma empresa_loop_search_pages (pages : list page) :
  empresa_loop pages None = search_pages pages.
Proof.
  induction pages as [|pg rest IH]; [reflexivity|].
  simpl. destruct pg as [t|e]; [cbn [bind] | reflexivity].
  destruct (Re.search cnpj_re (or_empty t)); [reflexivity | exact IH].
Qed.

Lemma search_pages_miss (t : option str) (rest : list page) :
  Re.search cnpj_re (or_empty t) = None ->
  search_pages (Ok t :: rest) = search_pages rest.
Proof. intros H. cbn [search_pages bind]. rewrite H. reflexivity. Qed.

End CompanyName.

(** ** The aggregating loop *)

Section Batch.

Context {env : Env}.

Variable zf : ZipFile.

Lemma step_spec (st : acc) (item : Future * str) :
  step zf st item =
  {| all_results := all_results st ++ records_of item;
     matched_files := matched_files st ++ matched_of zf item;
     unmatched_files := unmatched_files st ++ unmatched_of zf item;
     processed := S (processed st);
     errors := errors st ++ errors_of zf item |}.
Proof.
  destruct st as [R M U n E]. destruct item as [fut name].
  unfold step, step_try, records_of, matched_of, unmatched_of, errors_of.
  cbn [fst snd].
  destruct fut as [[[emp r] p] | e].
  - destruct emp as [[|c nm]|]; destruct (zf_read zf name); cbn;
      rewrite ?app_nil_r; reflexivity.
  - cbn. rewrite ?app_nil_r. reflexivity.
Qed.

Lemma loop_spec (done : list (Future * str)) :
  forall st,
    loop zf done st =
    {| all_results := all_results st ++ flat_map records_of done;
       matched_files := matched_files st ++ flat_map (matched_of zf) done;
       unmatched_files := unmatched_files st ++ flat_map (unmatched_of zf) done;
       processed := processed st + length done;
       errors := errors st ++ flat_map (errors_of zf) done |}.
Proof.
  unfold loop. induction done as [|item done IH]; intros st.
  - destruct st. cbn. rewrite ?app_nil_r, Nat.add_0_r. reflexivity.
  - cbn [fold_left flat_map length]. rewrite IH, step_spec. cbn.
    rewrite <- !app_assoc. f_equal. lia.
Qed.

Lemma process_pdf_total (file_bytes : bytes) :
  exists v, fst (process_pdf file_bytes) = Ok v.
Proof. unfold process_pdf. destruct (process_pdf_try file_bytes); cbn; eauto. Qed.

Lemma process_pdf_caught (file_bytes : bytes) (e : str) :
  process_pdf_try file_bytes = Raise e ->
  process_pdf file_bytes = (Ok (None, false, false), [erro_pdf ++ e]).
Proof. intros H. unfold process_pdf. rewrite H. reflexivity. Qed.

Lemma submit_all_spec (infos : list ZipInfo) (futs : list (Future * str)) :
  submit_all zf infos = Ok futs ->
  futs = map (item_of zf) infos /\ Forall (readable zf) infos.
Proof.
  revert futs. induction infos as [|info rest IH]; intros futs; cbn [submit_all].
  - intros H. injection H as <-. split; [reflexivity | constructor].
  - destruct (zf_read zf (zi_filename info)) as [b|e] eqn:Hb; cbn [bind];
      [|discriminate].
    destruct (submit_all zf rest) as [futs'|e]; cbn [bind]; [|discriminate].
    intros H. injection H as <-. destruct (IH _ eq_refl) as [-> Hall].
    split.
    + cbn [map]. f_equal. unfold item_of. rewrite Hb. reflexivity.
    + constructor; [exists b; exact Hb | exact Hall].
Qed.

Lemma submit_all_readable (infos : list ZipInfo) :
  Forall (readable zf) infos -> submit_all zf infos = Ok (map (item_of zf) infos).
Proof.
  induction 1 as [|info rest [b Hb] _ IH]; [reflexivity|].
  cbn [submit_all map]. rewrite Hb, IH. cbn [bind]. do 2 f_equal.
  unfold item_of. rewrite Hb. reflexivity.
Qed.

Lemma item_of_submitted (info : ZipInfo) :
  readable zf info -> submitted zf (item_of zf info).
Proof.
  intros [b Hb]. exists b. unfold item_of. cbn [fst snd]. rewrite Hb. auto.
Qed.

(** The two ways a submitted future ends. *)
Lemma submitted_cases (item : Future * str) :
  submitted zf item ->
  exists file_bytes emp rf_parc pgfn_parc,
    zf_read zf (snd item) = Ok file_bytes
    /\ fst (process_pdf file_bytes) = Ok (emp, rf_parc, pgfn_parc)
    /\ fst item = Ok (emp, rf_parc, pgfn_parc)
    /\ errors_of zf item = []
    /\ ((exists c n, emp = Some (c :: n)
          /\ records_of item = [{| empresa := c :: n; rf := rf_parc;
                                   pgfn := pgfn_parc; filename := snd item |}]
          /\ matched_of zf item = [((c :: n) ++ dot_pdf, file_bytes)]
          /\ unmatched_of zf item = [])
        \/ (truthy emp = false
            /\ records_of item = []
            /\ matched_of zf item = []
            /\ unmatched_of zf item = [(snd item, file_bytes)])).
Proof.
  intros (b & Hb & Hf). destruct (process_pdf_total b) as [[[emp r] p] Hv].
  exists b, emp, r, p. rewrite Hv in Hf.
  unfold errors_of, records_of, matched_of, unmatched_of. rewrite Hf, Hb.
  repeat split; try assumption.
  destruct emp as [[|c n]|]; [right | left | right]; cbn; eauto 7.
Qed.

Lemma batch_no_errors (done : list (Future * str)) :
  Forall (submitted zf) done -> flat_map (errors_of zf) done = [].
Proof.
  induction 1 as [|item done Hi _ IH]; [reflexivity|].
  cbn. destruct (submitted_cases Hi) as (b & emp & r & p & _ & _ & _ & -> & _).
  exact IH.
Qed.

(** Records and matched files are built side by side. *)
Lemma batch_matched (done : list (Future * str)) :
  Forall (submitted zf) done ->
  Forall2 (fun r f => fst f = empresa r ++ dot_pdf
                      /\ zf_read zf (filename r) = Ok (snd f))
    (flat_map records_of done) (flat_map (matched_of zf) done).
Proof.
  induction 1 as [|item done Hi _ IH]; [constructor|].
  cbn. destruct (submitted_cases Hi)
    as (b & emp & r & p & Hb & _ & _ & _
        & [(c & n & _ & -> & -> & _) | (_ & -> & -> & _)]).
  - cbn. constructor; [cbn; auto | exact IH].
  - exact IH.
Qed.

(** Each file name goes to exactly one side. *)
Lemma batch_partition (done : list (Future * str)) :
  Forall (submitted zf) done ->
  Permutation
    (map filename (flat_map records_of done)
     ++ map fst (flat_map (unmatched_of zf) done))
    (map snd done).
Proof.
  induction 1 as [|item done Hi _ IH]; [constructor|].
  cbn. destruct (submitted_cases Hi)
    as (b & emp & r & p & _ & _ & _ & _
        & [(c & n & _ & -> & _ & ->) | (_ & -> & _ & ->)]).
  - cbn. apply perm_skip, IH.
  - cbn. apply Permutation_sym, Permutation_cons_app, Permutation_sym, IH.
Qed.

Lemma batch_record_origin (done : list (Future * str)) (r : result) :
  In r (flat_map records_of done) ->
  exists item c n,
    In item done /\ filename r = snd item /\ empresa r = c :: n
    /\ fst item = Ok (Some (c :: n), rf r, pgfn r).
Proof.
  intros H. apply in_flat_map in H as (item & Hin & Hr).
  exists item. unfold records_of in Hr.
  destruct (fst item) as [[[[[|c n]|] rf_parc] pgfn_parc]|] eqn:Hf;
    try contradiction.
  destruct Hr as [<- | []]. exists c, n. cbn. auto.
Qed.

Lemma batch_unmatched (done : list (Future * str)) (item : Future * str)
    (emp : option str) (rf_parc pgfn_parc : bool) (file_bytes : bytes) :
  In item done -> fst item = Ok (emp, rf_parc, pgfn_parc) -> truthy emp = false ->
  zf_read zf (snd item) = Ok file_bytes ->
  In (snd item, file_bytes) (flat_map (unmatched_of zf) done).
Proof.
  intros Hin Hf Ht Hb. apply in_flat_map. exists item. split; [exact Hin|].
  unfold unmatched_of. rewrite Hf, Hb.
  destruct emp as [[|c n]|]; [left; reflexivity | discriminate | left; reflexivity].
Qed.

(** What a returning [processamento] has computed. *)
Lemma processamento_inv (batch : Batch) :
  processamento zf = Ok batch ->
  exists done,
    Permutation done (map (item_of zf) (pdf_files zf))
    /\ Forall (readable zf) (pdf_files zf)
    /\ Forall (submitted zf) done
    /\ all_results (dados batch) = flat_map records_of done
    /\ matched_files (dados batch) = flat_map (matched_of zf) done
    /\ unmatched_files (dados batch) = flat_map (unmatched_of zf) done
    /\ processed (dados batch) = length done
    /\ errors (dados batch) = []
    /\ zout batch = write_zip (dados batch).
Proof.
  unfold processamento.
  destruct (submit_all zf (pdf_files zf)) as [futs|e] eqn:Hs; cbn [bind];
    [|discriminate].
  intros H. injection H as <-. cbn [dados zout].
  destruct (submit_all_spec _ Hs) as [-> Hread].
  set (futs := map (item_of zf) (pdf_files zf)) in *.
  assert (Hsub : Forall (submitted zf) (as_completed futs)).
  { apply Forall_forall. intros item Hin.
    apply (Permutation_in _ (as_completed_perm futs)) in Hin.
    unfold futs in Hin. apply in_map_iff in Hin as (info & <- & Hinfo).
    apply item_of_submitted. rewrite Forall_forall in Hread. auto. }
  exists (as_completed futs). rewrite loop_spec. cbn.
  rewrite (batch_no_errors Hsub).
  repeat split; auto. apply as_completed_perm.
Qed.

(** An archive whose PDF entries can all be read is processed to the
    end. *)
Lemma processamento_returns :
  Forall (readable zf) (pdf_files zf) -> exists batch, processamento zf = Ok batch.
Proof.
  intros H. unfold processamento. rewrite (submit_all_readable H). cbn [bind].
  eauto.
Qed.

End Batch.

(** ** Counting *)

Lemma str_eqb_eq (a b : str) : str_eqb a b = true <-> a = b.
Proof.
  revert b; induction a as [|x a IH]; intros [|y b]; simpl;
    try (split; [discriminate | intros H; discriminate]); [tauto|].
  rewrite andb_true_iff, N.eqb_eq, IH. split.
  - intros [-> ->]. reflexivity.
  - intros H. injection H as -> ->. auto.
Qed.

Lemma str_eqb_refl (a : str) : str_eqb a a = true.
Proof. apply str_eqb_eq. reflexivity. Qed.

Lemma str_eqb_app_head (h a b : str) : str_eqb (h ++ a) (h ++ b) = str_eqb a b.
Proof.
  induction h as [|x h IH]; [reflexivity|]. simpl. rewrite N.eqb_refl. exact IH.
Qed.

Lemma str_eqb_app_tail (a b t : str) : str_eqb (a ++ t) (b ++ t) = str_eqb a b.
Proof.
  destruct (str_eqb a b) eqn:H.
  - apply str_eqb_eq in H as ->. apply str_eqb_refl.
  - destruct (str_eqb (a ++ t) (b ++ t)) eqn:H'; [|reflexivity].
    apply str_eqb_eq, app_inv_tail in H'. subst b.
    rewrite str_eqb_refl in H. discriminate.
Qed.


Lemma count_map (A B : Type) (g : A -> B) (p : B -> bool) (l : list A) :
  count p (map g l) = count (fun a => p (g a)) l.
Proof.
  unfold count. induction l as [|a l IH]; [reflexivity|].
  simpl. destruct (p (g a)); simpl; rewrite IH; reflexivity.
Qed.

Lemma count_ext (A : Type) (p q : A -> bool) (l : list A) :
  (forall a, In a l -> p a = q a) -> count p l = count q l.
Proof.
  unfold count. induction l as [|a l IH]; intros H; [reflexivity|].
  simpl. rewrite (H a) by (left; reflexivity).
  destruct (q a); simpl; rewrite IH; auto; intros; apply H; right; assumption.
Qed.


Lemma count_none (A : Type) (p : A -> bool) (l : list A) :
  (forall a, In a l -> p a = false) -> count p l = 0.
Proof.
  unfold count. induction l as [|a l IH]; intros H; [reflexivity|].
  simpl. rewrite (H a) by (left; reflexivity). apply IH.
  intros; apply H; right; assumption.
Qed.

Lemma Forall2_nth_error (A B : Type) (R : A -> B -> Prop) (l1 : list A) (l2 : list B) :
  Forall2 R l1 l2 ->
  forall i a, nth_error l1 i = Some a ->
              exists b, nth_error l2 i = Some b /\ R a b.
Proof.
  induction 1 as [|x y l1 l2 Hxy _ IH]; intros [|i] a; simpl; try discriminate.
  - intros H. injection H as <-. eauto.
  - apply IH.
Qed.

Lemma Forall2_nth_error_r (A B : Type) (R : A -> B -> Prop) (l1 : list A) (l2 : list B) :
  Forall2 R l1 l2 ->
  forall i b, nth_error l2 i = Some b ->
              exists a, nth_error l1 i = Some a /\ R a b.
Proof.
  induction 1 as [|x y l1 l2 Hxy _ IH]; intros [|i] b; simpl; try discriminate.
  - intros H. injection H as <-. eauto.
  - apply IH.
Qed.

(** ** The batch *)

Section BatchClaims.

Context {env : Env}.

Variable zf : ZipFile.

Lemma item_of_name (infos : list ZipInfo) :
  map snd (map (item_of zf) infos) = map zi_filename infos.
Proof. rewrite map_map. reflexivity. Qed.

(** The record of a file carries the name [process_pdf] gave for the
    bytes of that file. *)
Lemma record_is_named (done : list (Future * str)) (r : result) (file_bytes : bytes) :
  Forall (submitted zf) done ->
  In r (flat_map records_of done) ->
  zf_read zf (filename r) = Ok file_bytes ->
  exists c n, empresa r = c :: n
              /\ fst (process_pdf file_bytes) = Ok (Some (c :: n), rf r, pgfn r).
Proof.
  intros Hsub Hr Hb.
  destruct (batch_record_origin _ _ Hr) as (item & c & n & Hin & Hname & He & Hf).
  rewrite Forall_forall in Hsub. destruct (Hsub _ Hin) as (b' & Hb' & Hf').
  rewrite <- Hname, Hb in Hb'. injection Hb' as <-.
  exists c, n. split; [exact He | congruence].
Qed.

(** A file for which [process_pdf] gives no usable name is kept under
    its own name and has no record. *)
Lemma falsy_goes_unmatched (batch : Batch) (info : ZipInfo) (file_bytes : bytes)
    (emp : option str) (rf_parc pgfn_parc : bool) :
  processamento zf = Ok batch ->
  In info (pdf_files zf) ->
  zf_read zf (zi_filename info) = Ok file_bytes ->
  fst (process_pdf file_bytes) = Ok (emp, rf_parc, pgfn_parc) ->
  truthy emp = false ->
  In (zi_filename info, file_bytes) (unmatched_files (dados batch))
  /\ ~ In (zi_filename info) (map filename (all_results (dados batch))).
Proof.
  intros Hp Hin Hb Hv Ht.
  destruct (processamento_inv _ Hp)
    as (done & Hperm & _ & Hsub & -> & _ & -> & _).
  split.
  - assert (Hitem : In (item_of zf info) done).
    { apply (Permutation_in _ (Permutation_sym Hperm)), in_map, Hin. }
    apply (batch_unmatched _ _ _ Hitem (emp := emp)
             (rf_parc := rf_parc) (pgfn_parc := pgfn_parc)).
    + unfold item_of. cbn [fst]. rewrite Hb. exact Hv.
    + exact Ht.
    + exact Hb.
  - intros Hrec. apply in_map_iff in Hrec as (r & Hname & Hr).
    rewrite <- Hname in Hb.
    destruct (record_is_named _ Hsub Hr Hb) as (c & n & _ & Hv').
    rewrite Hv in Hv'. injection Hv' as -> _ _. discriminate.
Qed.

(** C1, as the code has it.  [process_pdf] turns a failure into the
    answer (absent, false, false) and reports it, so a qualifying entry
    whose processing raises is kept among the unmatched files under its
    own name, has no record, and gives no matched file: it contributes
    none, and every matched file stands at the index of a record of
    another file, named after that record and holding that file's
    bytes.  Records and unmatched files together are as many as the
    qualifying entries. *)
Theorem failed_pdf_goes_unmatched (batch : Batch) :
  processamento zf = Ok batch ->
  length (all_results (dados batch)) + length (unmatched_files (dados batch))
    = length (pdf_files zf)
  /\ forall info file_bytes e,
       In info (pdf_files zf) ->
       zf_read zf (zi_filename info) = Ok file_bytes ->
       process_pdf_try file_bytes = Raise e ->
       process_pdf file_bytes = (Ok (None, false, false), [erro_pdf ++ e])
       /\ In (zi_filename info, file_bytes) (unmatched_files (dados batch))
       /\ ~ In (zi_filename info) (map filename (all_results (dados batch)))
       /\ matched_of zf (item_of zf info) = []
       /\ forall i f,
            nth_error (matched_files (dados batch)) i = Some f ->
            exists r, nth_error (all_results (dados batch)) i = Some r
                      /\ fst f = empresa r ++ dot_pdf
                      /\ zf_read zf (filename r) = Ok (snd f)
                      /\ filename r <> zi_filename info.
Proof.
  intros Hp. split.
  - destruct (processamento_inv _ Hp)
      as (done & Hperm & _ & Hsub & -> & _ & -> & _).
    pose proof (Permutation_length (batch_partition Hsub)) as Hlen.
    rewrite length_app, !length_map in Hlen. rewrite Hlen.
    rewrite (Permutation_length Hperm), length_map. reflexivity.
  - intros info b e Hin Hb He. pose proof (process_pdf_caught _ He) as Hc.
    split; [exact Hc|].
    destruct (@falsy_goes_unmatched batch info b None false false Hp Hin Hb)
      as [Hun Hrec]; [rewrite Hc; reflexivity | reflexivity |].
    split; [exact Hun|]. split; [exact Hrec|]. split.
    + unfold matched_of, item_of. cbn [fst snd]. rewrite Hb, Hc. reflexivity.
    + intros i f Hf.
      destruct (processamento_inv _ Hp)
        as (done & _ & _ & Hsub & Hr & Hm & _).
      rewrite Hm in Hf.
      destruct (Forall2_nth_error_r (batch_matched Hsub) _ Hf)
        as (r & Hi & Hname & Hbytes).
      rewrite <- Hr in Hi. exists r.
      split; [exact Hi|]. split; [exact Hname|]. split; [exact Hbytes|].
      intros E. apply Hrec. rewrite <- E. apply in_map.
      apply (nth_error_In _ _ Hi).
Qed.

(** C2. Every qualifying entry is in exactly one of the two outputs:
    the file names of the records together with the names of the
    unmatched files are the names of the qualifying entries, each as
    often as it occurs.  Records and matched files have the same length,
    and the i-th matched file is named after the i-th record, company
    name followed by ".pdf", with the bytes of that record's file. *)
Theorem records_and_files_correspond (batch : Batch) :
  processamento zf = Ok batch ->
  Permutation
    (map filename (all_results (dados batch))
     ++ map fst (unmatched_files (dados batch)))
    (map zi_filename (pdf_files zf))
  /\ length (matched_files (dados batch)) = length (all_results (dados batch))
  /\ forall i r,
       nth_error (all_results (dados batch)) i = Some r ->
       exists file_bytes,
         nth_error (matched_files (dados batch)) i
           = Some (empresa r ++ dot_pdf, file_bytes)
         /\ zf_read zf (filename r) = Ok file_bytes.
Proof.
  intros Hp.
  destruct (processamento_inv _ Hp)
    as (done & Hperm & _ & Hsub & -> & -> & -> & _).
  pose proof (batch_matched Hsub) as H2.
  split; [|split].
  - rewrite (batch_partition Hsub), <- item_of_name.
    apply Permutation_map, Hperm.
  - symmetry. exact (Forall2_length H2).
  - intros i r Hi.
    destruct (Forall2_nth_error H2 _ Hi) as ([nm b] & Hn & Hfst & Hread).
    cbn in Hfst, Hread. subst nm. eauto.
Qed.

(** The name that [process_pdf] answers is the one found in the first
    two pages, or none when something raised. *)
Lemma process_pdf_name (file_bytes : bytes) (pdf : list page)
    (name emp : option str) (rf_parc pgfn_parc : bool) :
  pdfplumber_open file_bytes = Ok pdf ->
  search_pages (firstn 2 pdf) = Ok name ->
  fst (process_pdf file_bytes) = Ok (emp, rf_parc, pgfn_parc) ->
  emp = name \/ emp = None.
Proof.
  intros Hpdf Hname. unfold process_pdf.
  destruct (process_pdf_try file_bytes) as [[[e r] p]|msg] eqn:Ht; cbn [fst].
  - intros H. injection H as <- _ _. left. revert Ht. unfold process_pdf_try.
    destruct (PdfReader file_bytes) as [pages|]; [cbn [bind] | discriminate].
    destruct (text_loop pages []) as [text|]; [cbn [bind] | discriminate].
    rewrite Hpdf. cbn [bind]. rewrite empresa_loop_search_pages, Hname.
    cbn [bind]. intros H. injection H as <- _ _. reflexivity.
  - intros H. injection H as <- _ _. right. reflexivity.
Qed.

(** C8. Every record of a batch has a non-empty company name.  A file
    for which [process_pdf] returns no name, or the empty name, has no
    record and is among the unmatched files; and that is what
    [process_pdf] returns when the header search finds no name or a name
    that strips to the empty string. *)
Theorem records_have_names (batch : Batch) :
  processamento zf = Ok batch ->
  (forall r, In r (all_results (dados batch)) -> empresa r <> [])
  /\ (forall info file_bytes emp rf_parc pgfn_parc,
       In info (pdf_files zf) ->
       zf_read zf (zi_filename info) = Ok file_bytes ->
       fst (process_pdf file_bytes) = Ok (emp, rf_parc, pgfn_parc) ->
       emp = None \/ emp = Some [] ->
       In (zi_filename info, file_bytes) (unmatched_files (dados batch))
       /\ ~ In (zi_filename info) (map filename (all_results (dados batch))))
  /\ (forall file_bytes pdf name emp rf_parc pgfn_parc,
       pdfplumber_open file_bytes = Ok pdf ->
       search_pages (firstn 2 pdf) = Ok name ->
       name = None \/ name = Some [] ->
       fst (process_pdf file_bytes) = Ok (emp, rf_parc, pgfn_parc) ->
       emp = None \/ emp = Some []).
Proof.
  intros Hp. split; [|split].
  3: { intros b pdf name emp r p Hpdf Hname Hfalsy Hv.
       destruct (process_pdf_name _ Hpdf Hname Hv) as [-> | ->];
         [exact Hfalsy | left; reflexivity]. }
  - destruct (processamento_inv _ Hp) as (done & _ & _ & _ & -> & _).
    intros r Hr. destruct (batch_record_origin _ _ Hr) as (_ & c & n & _ & _ & -> & _).
    discriminate.
  - intros info b emp r p Hin Hb Hv Hemp.
    apply (@falsy_goes_unmatched batch info b emp r p Hp Hin Hb Hv).
    destruct Hemp as [-> | ->]; reflexivity.
Qed.

(** C9. [process_pdf] never raises: whatever fails inside its [try] is
    caught, reported, and answered with (absent, false, false).  So the
    [except] branch of the aggregating loop never runs, and a file that
    fails is among the unmatched files. *)
Theorem process_pdf_never_raises :
  (forall file_bytes, exists v, fst (process_pdf file_bytes) = Ok v)
  /\ (forall file_bytes e,
        process_pdf_try file_bytes = Raise e ->
        process_pdf file_bytes = (Ok (None, false, false), [erro_pdf ++ e]))
  /\ (forall batch,
        processamento zf = Ok batch ->
        errors (dados batch) = []
        /\ forall info file_bytes e,
             In info (pdf_files zf) ->
             zf_read zf (zi_filename info) = Ok file_bytes ->
             process_pdf_try file_bytes = Raise e ->
             In (zi_filename info, file_bytes) (unmatched_files (dados batch))).
Proof.
  split; [exact process_pdf_total|]. split; [exact process_pdf_caught|].
  intros batch Hp. split.
  - destruct (processamento_inv _ Hp) as (done & H). tauto.
  - intros info b e Hin Hb He. pose proof (process_pdf_caught _ He) as Hc.
    apply (@falsy_goes_unmatched batch info b None false false Hp Hin Hb);
      [rewrite Hc|]; reflexivity.
Qed.

End BatchClaims.


Section Collisions.

Context {env : Env}.

Variable zf : ZipFile.




Lemma arcname_no_nul (s : str) : no_nul s = true -> arcname s = s.
Proof.
  induction s as [|c s IH]; [reflexivity|]. unfold no_nul. simpl.
  intros H. apply andb_true_iff in H as [Hc Hs]. apply negb_true_iff in Hc.
  rewrite Hc. f_equal. apply IH, Hs.
Qed.


(** ** Filtering *)

Lemma filter_loop_spec (search_terms : list str) (results filtered : list result) :
  filter_loop results search_terms filtered
  = filtered ++ filter (keeps search_terms) results.
Proof.
  revert filtered. induction results as [|r rest IH]; intros filtered.
  - simpl. rewrite app_nil_r. reflexivity.
  - cbn [filter_loop filter]. unfold keeps at 1, term_matches.
    destruct (existsb _ search_terms); rewrite IH; [|reflexivity].
    rewrite <- app_assoc. reflexivity.
Qed.

(** C7. With at least one term, [filter_results] keeps, in order, the
    records whose lowered company name contains a lowered term as a
    substring, and only those; with no term it returns the records
    unchanged. *)
Theorem filter_results_keeps_matches (results : list result) (search_terms : list str) :
  (search_terms <> [] ->
     filter_results results search_terms = filter (keeps search_terms) results
     /\ forall r,
          In r (filter_results results search_terms) <->
          In r results
          /\ exists term, In term search_terms
                          /\ occurs (lower term) (lower (empresa r)))
  /\ filter_results results [] = results.
Proof.
  split; [|reflexivity].
  intros Hne.
  assert (E : filter_results results search_terms
              = filter (keeps search_terms) results).
  { destruct search_terms as [|t ts]; [congruence|].
    unfold filter_results. apply filter_loop_spec. }
  split; [exact E|].
  intros r. rewrite E, filter_In. unfold keeps. rewrite existsb_exists.
  split; intros [Hin (term & Ht & Hc)]; (split; [exact Hin|]);
    exists term; (split; [exact Ht|]); apply contains_iff; exact Hc.
Qed.

End Collisions.

(** ** The development at work on the example documents *)

Lemma first_occ_find (sub s : str) (k : nat) :
  find s sub = Z.of_nat k -> first_occ sub s k.
Proof.
  intros H. destruct (@find_found sub s) as (k' & Hk' & E).
  - unfold found. rewrite H. destruct (Z.eqb_spec (Z.of_nat k) (-1)); [lia|reflexivity].
  - replace k with k' by lia. exact Hk'.
Qed.

Lemma not_occurs (sub s : str) : contains sub s = false -> ~ occurs sub s.
Proof. intros H Ho. apply contains_iff in Ho. congruence. Qed.

Lemma scenario_runs : @processamento toy_env Demo.zf_scenario = Ok Demo.batch_scenario.
Proof. vm_compute. reflexivity. Qed.

Lemma demo_runs : @processamento toy_env Demo.zf_demo = Ok Demo.batch_demo.
Proof. vm_compute. reflexivity. Qed.

(** In the scenario of the specification the unreadable file is kept as
    an unmatched file: two records and one unmatched file for three
    qualifying entries of which one raised. *)
Lemma corrupt_pdf_is_unmatched :
  length (@pdf_files toy_env Demo.zf_scenario) = 3
  /\ count (@raises toy_env Demo.zf_scenario) (@pdf_files toy_env Demo.zf_scenario) = 1
  /\ @raises toy_env Demo.zf_scenario (Demo.entry "c.pdf" Demo.doc_corrupt) = true
  /\ length (all_results (dados Demo.batch_scenario)) = 2
  /\ unmatched_files (dados Demo.batch_scenario) = [(utf8 "c.pdf", Demo.doc_corrupt)]
  /\ length (all_results (dados Demo.batch_scenario))
     + length (unmatched_files (dados Demo.batch_scenario))
     <> length (@pdf_files toy_env Demo.zf_scenario)
        - count (@raises toy_env Demo.zf_scenario) (@pdf_files toy_env Demo.zf_scenario).
Proof.
  repeat split; try (vm_compute; reflexivity).
  vm_compute. discriminate.
Qed.

Lemma failed_pdf_goes_unmatched_witness :
  @processamento toy_env Demo.zf_demo = Ok Demo.batch_demo
  /\ length (all_results (dados Demo.batch_demo))
     + length (unmatched_files (dados Demo.batch_demo))
     = length (@pdf_files toy_env Demo.zf_demo)
  /\ @process_pdf toy_env Demo.doc_corrupt
     = (Ok (None, false, false), [erro_pdf ++ Toy.empty_file])
  /\ In (utf8 "c.pdf", Demo.doc_corrupt) (unmatched_files (dados Demo.batch_demo))
  /\ ~ In (utf8 "c.pdf") (map filename (all_results (dados Demo.batch_demo)))
  /\ matched_of Demo.zf_demo
       (@item_of toy_env Demo.zf_demo (Demo.entry "c.pdf" Demo.doc_corrupt)) = []
  /\ forall i f,
       nth_error (matched_files (dados Demo.batch_demo)) i = Some f ->
       exists r, nth_error (all_results (dados Demo.batch_demo)) i = Some r
                 /\ fst f = empresa r ++ dot_pdf
                 /\ zf_read Demo.zf_demo (filename r) = Ok (snd f)
                 /\ filename r <> utf8 "c.pdf".
Proof.
  split; [exact demo_runs|].
  destruct (@failed_pdf_goes_unmatched toy_env Demo.zf_demo Demo.batch_demo demo_runs)
    as [Hlen Hfail].
  split; [exact Hlen|].
  apply (Hfail (Demo.entry "c.pdf" Demo.doc_corrupt) Demo.doc_corrupt Toy.empty_file).
  - vm_compute. do 2 right. left. reflexivity.
  - vm_compute. reflexivity.
  - vm_compute. reflexivity.
Defined.

Lemma records_and_files_correspond_witness :
  @processamento toy_env Demo.zf_demo = Ok Demo.batch_demo
  /\ length (matched_files (dados Demo.batch_demo)) = length (all_results (dados Demo.batch_demo))
  /\ exists file_bytes,
       nth_error (matched_files (dados Demo.batch_demo)) 1
       = Some (utf8 "BETA SA.pdf", file_bytes).
Proof.
  split; [exact demo_runs|].
  destruct (@records_and_files_correspond toy_env Demo.zf_demo Demo.batch_demo demo_runs)
    as (_ & Hlen & Hnth).
  split; [exact Hlen|].
  destruct (Hnth 1 {| empresa := utf8 "BETA SA"; rf := true; pgfn := true;
                      filename := utf8 "B.PDF" |}) as (b & Hb & _).
  - vm_compute. reflexivity.
  - exists b. exact Hb.
Defined.

Lemma records_have_names_witness :
  @processamento toy_env Demo.zf_demo = Ok Demo.batch_demo
  /\ (forall r, In r (all_results (dados Demo.batch_demo)) -> empresa r <> [])
  /\ In (utf8 "d.pdf", Demo.doc_blank) (unmatched_files (dados Demo.batch_demo))
  /\ ~ In (utf8 "d.pdf") (map filename (all_results (dados Demo.batch_demo))).
Proof.
  split; [exact demo_runs|].
  destruct (@records_have_names toy_env Demo.zf_demo Demo.batch_demo demo_runs)
    as (Hrec & Hblank & _).
  split; [exact Hrec|].
  apply (Hblank (Demo.entry "d.pdf" Demo.doc_blank) Demo.doc_blank (Some []) false false).
  - vm_compute. do 3 right. left. reflexivity.
  - vm_compute. reflexivity.
  - vm_compute. reflexivity.
  - right. reflexivity.
Defined.

Lemma process_pdf_never_raises_witness :
  @process_pdf toy_env Demo.doc_corrupt
    = (Ok (None, false, false), [erro_pdf ++ Toy.empty_file])
  /\ errors (dados Demo.batch_demo) = []
  /\ In (utf8 "c.pdf", Demo.doc_corrupt) (unmatched_files (dados Demo.batch_demo)).
Proof.
  destruct (@process_pdf_never_raises toy_env Demo.zf_demo) as (_ & Hcaught & Hbatch).
  split.
  - apply Hcaught. vm_compute. reflexivity.
  - destruct (Hbatch Demo.batch_demo demo_runs) as [Herr Hfail].
    split; [exact Herr|].
    apply (Hfail (Demo.entry "c.pdf" Demo.doc_corrupt) Demo.doc_corrupt Toy.empty_file).
    + vm_compute. do 2 right. left. reflexivity.
    + vm_compute. reflexivity.
    + vm_compute. reflexivity.
Defined.



Lemma filter_results_keeps_matches_witness :
  [Demo.acme] <> []
  /\ @filter_results toy_env (all_results (dados Demo.batch_demo)) [Demo.acme]
     = [ {| empresa := acme_ltda; rf := true; pgfn := false; filename := utf8 "e.pdf" |};
         {| empresa := acme_ltda; rf := true; pgfn := false; filename := utf8 "a.pdf" |} ].
Proof.
  assert (Hne : [Demo.acme] <> []) by discriminate.
  split; [exact Hne|].
  destruct (@filter_results_keeps_matches toy_env
              (all_results (dados Demo.batch_demo)) [Demo.acme]) as [Hkeep _].
  destruct (Hkeep Hne) as [E _]. rewrite E. vm_compute. reflexivity.
Defined.

Lemma rf_needs_both_headers_in_order_witness :
  (exists r p,
      first_occ rf_title (template [] [] [] [] []) r
      /\ first_occ pgfn_title (template [] [] [] [] []) p /\ r < p)
  /\ (rf_section_of (pgfn_title ++ em_parcelamento ++ rf_title) = []
      /\ fst (analyze_text (pgfn_title ++ em_parcelamento ++ rf_title)) = false)
  /\ analyze_text em_parcelamento = (false, false).
Proof.
  split; [|split].
  - apply (proj1 (rf_needs_both_headers_in_order (template [] [] [] [] []))).
    vm_compute. reflexivity.
  - apply (proj1 (proj2 (rf_needs_both_headers_in_order
                           (pgfn_title ++ em_parcelamento ++ rf_title)))).
    right. right. exists 75, 0. split; [|split; [|lia]];
      apply first_occ_find; vm_compute; reflexivity.
  - apply (proj2 (proj2 (rf_needs_both_headers_in_order em_parcelamento)));
      apply not_occurs; vm_compute; reflexivity.
Defined.

(** A PGFN header ahead of the RF header empties the RF section although
    the four literals follow in the stated order. *)
Lemma template_misclassified :
  analyze_text (template pgfn_title [] [] [] []) = (false, true)
  /\ ~ (forall A B C D E, analyze_text (template A B C D E) = (true, true)).
Proof.
  split; [vm_compute; reflexivity|].
  intros H. specialize (H pgfn_title [] [] [] []). vm_compute in H. discriminate.
Qed.

Lemma template_classified_witness :
  (forall k, occurs_at pgfn_title (template [] [] [] [] []) k ->
             length ([] ++ rf_title ++ [] ++ em_parcelamento) <= k)
  /\ analyze_text (template [] [] [] [] []) = (true, true).
Proof.
  assert (H : forall k, occurs_at pgfn_title (template [] [] [] [] []) k ->
                        length ([] ++ rf_title ++ [] ++ em_parcelamento) <= k).
  { intros k Hk. pose proof (find_le_occurrence Hk) as Hf.
    assert (E : find (template [] [] [] [] []) pgfn_title = 52%Z)
      by (vm_compute; reflexivity).
    rewrite E in Hf. change (length ([] ++ rf_title ++ [] ++ em_parcelamento)) with 52.
    lia. }
  split; [exact H | exact (proj1 (template_classified [] [] [] [] [] H))].
Defined.

(** ** [str.strip] *)

Lemma lstrip_blank (s : str) : forallb isspace s = true -> lstrip s = [].
Proof.
  induction s as [|c s IH]; [reflexivity|]. simpl.
  intros H. apply andb_true_iff in H as [Hc Hs]. rewrite Hc. auto.
Qed.

Lemma lstrip_spec (s : str) :
  exists ws, s = ws ++ lstrip s /\ forallb isspace ws = true
             /\ (lstrip s = [] \/ exists c r, lstrip s = c :: r /\ isspace c = false).
Proof.
  induction s as [|c s (ws & E & Hws & Hhd)].
  - exists []. simpl. auto.
  - simpl. destruct (isspace c) eqn:Hc.
    + exists (c :: ws). simpl. rewrite Hc, Hws. repeat split; [congruence | exact Hhd].
    + exists []. repeat split. right. eauto.
Qed.

Lemma lstrip_keeps (l r : str) (c : char) :
  isspace c = false -> lstrip (l ++ c :: r) = lstrip l ++ c :: r.
Proof.
  intros Hc. induction l as [|a l IH]; simpl.
  - rewrite Hc. reflexivity.
  - destruct (isspace a); [exact IH | reflexivity].
Qed.

Lemma rstrip_cons (c : char) (r : str) :
  isspace c = false -> rstrip (c :: r) = c :: rstrip r.
Proof.
  intros Hc. unfold rstrip. simpl rev. rewrite lstrip_keeps by exact Hc.
  rewrite rev_app_distr. reflexivity.
Qed.

Lemma rstrip_spec (s : str) :
  exists ws, s = rstrip s ++ ws /\ forallb isspace ws = true
             /\ (rstrip s = [] \/ exists r c, rstrip s = r ++ [c] /\ isspace c = false).
Proof.
  unfold rstrip. destruct (lstrip_spec (rev s)) as (ws & E & Hws & Hhd).
  exists (rev ws). split; [|split].
  - rewrite <- rev_app_distr, <- E, rev_involutive. reflexivity.
  - rewrite forallb_forall in *. intros x Hx. apply Hws, in_rev, Hx.
  - destruct Hhd as [-> | (c & r & -> & Hc)]; [left; reflexivity|].
    right. exists (rev r), c. split; [reflexivity | exact Hc].
Qed.

Lemma trimmed_iff (s : str) :
  trimmed s = true <->
  (exists c r, s = c :: r /\ isspace c = false)
  /\ (exists r c, s = r ++ [c] /\ isspace c = false).
Proof.
  split.
  - destruct s as [|c r]; [discriminate|]. unfold trimmed.
    rewrite andb_true_iff, !negb_true_iff. intros [Hc Hl]. split; [eauto|].
    destruct (@exists_last _ (c :: r)) as (r' & c' & E); [discriminate|].
    rewrite E in Hl |- *. rewrite last_last in Hl. eauto.
  - intros [(c & r & -> & Hc) (r' & c' & E & Hc')]. unfold trimmed.
    rewrite E at 1. rewrite last_last, Hc, Hc'. reflexivity.
Qed.

(** [strip] removes white space at both ends and nothing else. *)
Lemma strip_spec (s : str) :
  exists ws1 ws2,
    s = ws1 ++ strip s ++ ws2
    /\ forallb isspace ws1 = true /\ forallb isspace ws2 = true
    /\ (strip s = [] \/ trimmed (strip s) = true).
Proof.
  unfold strip. destruct (lstrip_spec s) as (ws1 & E1 & H1 & Hhd).
  destruct (rstrip_spec (lstrip s)) as (ws2 & E2 & H2 & Hlast).
  exists ws1, ws2. split; [|split; [|split]]; try assumption.
  - rewrite <- E2. exact E1.
  - destruct Hlast as [Hnil | Hlast]; [left; exact Hnil|]. right.
    apply trimmed_iff. split; [|exact Hlast].
    destruct Hhd as [Hnil | (c & r & Hl & Hc)].
    + rewrite Hnil in Hlast. destruct Hlast as (r & c & E & _).
      destruct r; discriminate.
    + rewrite Hl, rstrip_cons by exact Hc. eauto.
Qed.

Lemma strip_trimmed (ws s : str) :
  forallb isspace ws = true -> trimmed s = true -> strip (ws ++ s) = s.
Proof.
  intros Hws Hs. apply trimmed_iff in Hs as [(c & r & -> & Hc) (r' & c' & E & Hc')].
  unfold strip.
  assert (Hl : lstrip (ws ++ c :: r) = c :: r).
  { rewrite lstrip_keeps, lstrip_blank by assumption. reflexivity. }
  rewrite Hl, E. unfold rstrip. rewrite rev_app_distr. simpl. rewrite Hc'.
  change (c' :: rev r') with (rev [c'] ++ rev r').
  rewrite <- rev_app_distr, rev_involutive. reflexivity.
Qed.

Lemma strip_blank (s : str) : strip s = [] <-> forallb isspace s = true.
Proof.
  split.
  - intros H. destruct (strip_spec s) as (ws1 & ws2 & E & H1 & H2 & _).
    rewrite H in E. rewrite E, forallb_app, H1. exact H2.
  - intros H. unfold strip. rewrite lstrip_blank by exact H. reflexivity.
Qed.

Lemma strip_forallb (p : char -> bool) (s : str) :
  forallb p s = true -> forallb p (strip s) = true.
Proof.
  intros H. destruct (strip_spec s) as (ws1 & ws2 & E & _).
  rewrite E, !forallb_app, !andb_true_iff in H. tauto.
Qed.

(** ** The company name *)

Lemma run_mark (m : nat) (re' : list Re.node) (s : str) (i : nat) (mk : Re.marks) :
  Re.run (Re.Mark m :: re') s i mk = Re.run re' s i ((m, i) :: mk).
Proof. reflexivity. Qed.

Lemma run_set (p : char -> bool) (re' : list Re.node) (s : str) (i : nat)
    (mk : Re.marks) :
  Re.run (Re.Set_ p :: re') s i mk =
  match s with
  | b :: s' => if p b then Re.run re' s' (S i) mk else None
  | [] => None
  end.
Proof. reflexivity. Qed.

(** A star that fails has failed after every run of the class. *)
Lemma run_star_none (p : char -> bool) (re' : list Re.node) :
  forall s i mk,
    Re.run (Re.Star p :: re') s i mk = None ->
    forall w s', s = w ++ s' -> forallb p w = true ->
                 Re.run re' s' (i + length w) mk = None.
Proof.
  induction s as [|b s IH]; intros i mk; rewrite run_star_eq.
  - intros H w s' E _. symmetry in E. apply app_eq_nil in E as [-> ->].
    simpl. rewrite Nat.add_0_r. exact H.
  - intros H w s' E Hw. destruct w as [|c w].
    + simpl in E. subst s'. simpl. rewrite Nat.add_0_r.
      destruct (p b); [|exact H].
      destruct (Re.run (Re.Star p :: re') s (S i) mk); [discriminate | exact H].
    + simpl in E. injection E as <- E. simpl in Hw.
      apply andb_true_iff in Hw as [Hb Hw]. rewrite Hb in H.
      destruct (Re.run (Re.Star p :: re') s (S i) mk) eqn:Hrec; [discriminate|].
      simpl length. replace (i + S (length w)) with (S i + length w) by lia.
      exact (IH _ _ Hrec w s' E Hw).
Qed.

(** A star that succeeds has taken the longest run of the class after
    which the rest of the pattern matches. *)
Lemma run_star_greedy (p : char -> bool) (re' : list Re.node) (r : nat * Re.marks) :
  forall s i mk,
    Re.run (Re.Star p :: re') s i mk = Some r ->
    exists w s',
      s = w ++ s' /\ forallb p w = true
      /\ Re.run re' s' (i + length w) mk = Some r
      /\ forall w' s'', s = w' ++ s'' -> forallb p w' = true ->
                        length w < length w' ->
                        Re.run re' s'' (i + length w') mk = None.
Proof.
  induction s as [|b s IH]; intros i mk; rewrite run_star_eq.
  - intros H. exists [], []. simpl. rewrite Nat.add_0_r.
    repeat split; [exact H|].
    intros w' s'' E _ Hlt. symmetry in E. apply app_eq_nil in E as [-> _].
    simpl in Hlt. lia.
  - destruct (p b) eqn:Hb.
    + destruct (Re.run (Re.Star p :: re') s (S i) mk) as [r0|] eqn:Hrec.
      * intros H. injection H as ->.
        destruct (IH _ _ Hrec) as (w & s' & E & Hw & Hr & Hg).
        exists (b :: w), s'. split; [simpl; congruence|].
        split; [simpl; rewrite Hb; exact Hw|]. split.
        { simpl length. replace (i + S (length w)) with (S i + length w) by lia.
          exact Hr. }
        intros w' s'' E' Hw' Hlt. destruct w' as [|c w']; [simpl in Hlt; lia|].
        simpl in E'. injection E' as <- E'. simpl in Hw'.
        apply andb_true_iff in Hw' as [_ Hw']. simpl length in *.
        replace (i + S (length w')) with (S i + length w') by lia.
        apply (Hg w' s'' E' Hw'). lia.
      * intros H. exists [], (b :: s). simpl. rewrite Nat.add_0_r.
        repeat split; [exact H|].
        intros w' s'' E' Hw' Hlt. destruct w' as [|c w']; [simpl in Hlt; lia|].
        simpl in E'. injection E' as <- E'. simpl in Hw'.
        apply andb_true_iff in Hw' as [_ Hw']. simpl length.
        replace (i + S (length w')) with (S i + length w') by lia.
        exact (run_star_none _ _ _ _ Hrec w' s'' E' Hw').
    + intros H. exists [], (b :: s). simpl. rewrite Nat.add_0_r.
      repeat split; [exact H|].
      intros w' s'' E' Hw' Hlt. destruct w' as [|c w']; [simpl in Hlt; lia|].
      simpl in E'. injection E' as <- E'. simpl in Hw'.
      apply andb_true_iff in Hw' as [Hb' _]. congruence.
Qed.

(** Group 2 needs one character other than a newline and takes the rest
    of the line. *)
Lemma tail_run (s : str) (i : nat) (mk : Re.marks) :
  Re.run cnpj_tail_re s i mk =
  match s with
  | c :: s' =>
      if not_newline c
      then Some (S i + length (takewhile not_newline s'),
                 (3, S i + length (takewhile not_newline s')) :: (2, i) :: mk)
      else None
  | [] => None
  end.
Proof.
  unfold cnpj_tail_re. rewrite run_mark, run_set.
  destruct s as [|c s']; [reflexivity|].
  destruct (not_newline c); [apply run_star_last | reflexivity].
Qed.

Lemma not_newline_false (c : char) : not_newline c = false -> c = newline.
Proof. unfold not_newline. intros H. apply negb_false_iff, N.eqb_eq in H. exact H. Qed.

Lemma tail_run_none (s : str) (i : nat) (mk : Re.marks) :
  Re.run cnpj_tail_re s i mk = None -> line_end s.
Proof.
  rewrite tail_run. destruct s as [|c s']; [left; reflexivity|].
  destruct (not_newline c) eqn:Hc; [discriminate|].
  intros _. right. exists s'. rewrite (not_newline_false _ Hc). reflexivity.
Qed.

Lemma app_same_length (A : Type) (u u' x x' : list A) :
  u ++ x = u' ++ x' -> length u = length u' -> u = u' /\ x = x'.
Proof.
  revert u'. induction u as [|a u IH]; intros [|a' u'] E Hl; simpl in *;
    try discriminate.
  - auto.
  - injection E as -> E. destruct (IH u' E) as [-> ->]; [lia | auto].
Qed.

(** The text of a line is determined by the text that starts with it. *)
Lemma line_unique (name name' rest rest' : str) :
  forallb not_newline name = true -> forallb not_newline name' = true ->
  line_end rest -> line_end rest' ->
  name ++ rest = name' ++ rest' -> name = name'.
Proof.
  revert name'. induction name as [|c name IH]; intros [|c' name'] Hn Hn' Hr Hr' E;
    simpl in *.
  - reflexivity.
  - apply andb_true_iff in Hn' as [Hc _]. subst rest.
    destruct Hr as [Hr | (s' & Hr)]; [discriminate|].
    injection Hr as -> _. discriminate Hc.
  - apply andb_true_iff in Hn as [Hc _]. subst rest'.
    destruct Hr' as [Hr' | (s' & Hr')]; [discriminate|].
    injection Hr' as -> _. discriminate Hc.
  - apply andb_true_iff in Hn as [_ Hn]. apply andb_true_iff in Hn' as [_ Hn'].
    injection E as -> E. f_equal. exact (IH _ Hn Hn' Hr Hr' E).
Qed.

Lemma blank_prefix_unique (p : char -> bool) (a : char) (u u' x x' : str) :
  p a = false -> forallb p u = true -> forallb p u' = true ->
  u ++ a :: x = u' ++ a :: x' -> u = u' /\ x = x'.
Proof.
  intros Ha. revert u'. induction u as [|b u IH]; intros [|b' u'] Hu Hu' E;
    simpl in *.
  - injection E as ->. auto.
  - injection E as <- _. apply andb_true_iff in Hu' as [Hb _]. congruence.
  - injection E as -> _. apply andb_true_iff in Hu as [Hb _]. congruence.
  - apply andb_true_iff in Hu as [_ Hu]. apply andb_true_iff in Hu' as [_ Hu'].
    injection E as -> E. destruct (IH _ Hu Hu' E) as [-> ->]. auto.
Qed.

Lemma cnpj_name_unique (s name name' : str) :
  cnpj_name s name -> cnpj_name s name' -> name = name'.
Proof.
  assert (Hlong : forall w3 n rest w3' n' rest',
             w3 ++ n ++ rest = w3' ++ n' ++ rest' ->
             n' <> [] -> forallb not_newline n' = true ->
             (forall w' s', w3 ++ n ++ rest = w' ++ s' ->
                            forallb isspace w' = true ->
                            length w3 < length w' -> line_end s') ->
             forallb isspace w3' = true ->
             ~ length w3 < length w3').
  { intros w3 n rest w3' n' rest' E Hne Hnl Hg Hw Hlt.
    destruct n' as [|c n']; [congruence|].
    destruct (Hg w3' ((c :: n') ++ rest') E Hw Hlt) as [H | (s' & H)];
      [discriminate|].
    simpl in H, Hnl. injection H as -> _. discriminate Hnl. }
  intros (w3 & rest & E & Hw & Hne & Hnl & Hend & Hg)
         (w3' & rest' & E' & Hw' & Hne' & Hnl' & Hend' & Hg').
  assert (Hlen : length w3 = length w3').
  { destruct (Nat.lt_trichotomy (length w3) (length w3')) as [Hlt | [Heq | Hlt]];
      [exfalso | exact Heq | exfalso].
    - eapply (Hlong w3 name rest w3' name' rest'); try eassumption.
      + congruence.
      + rewrite <- E. exact Hg.
    - eapply (Hlong w3' name' rest' w3 name rest); try eassumption.
      + congruence.
      + rewrite <- E'. exact Hg'. }
  rewrite E in E'. destruct (app_same_length _ _ _ _ E' Hlen) as [_ E2].
  exact (line_unique _ _ Hnl Hnl' Hend Hend' E2).
Qed.

Lemma dash_not_blank : isspace dash = false.
Proof. reflexivity. Qed.

Lemma trim_of_strip (name res : str) : trim_of name res -> res = strip name.
Proof.
  intros (ws1 & ws2 & -> & H1 & H2 & [-> | Ht]).
  - simpl. symmetry. apply strip_blank. rewrite forallb_app, H1. exact H2.
  - pose proof Ht as Ht'.
    apply trimmed_iff in Ht' as [(c & r & Ec & Hc) (r' & c' & Ec' & Hc')].
    symmetry. unfold strip.
    assert (Hl : lstrip (ws1 ++ res ++ ws2) = res ++ ws2).
    { rewrite Ec. simpl app. rewrite lstrip_keeps, lstrip_blank by assumption.
      reflexivity. }
    rewrite Hl, Ec'. unfold rstrip. rewrite !rev_app_distr. simpl rev.
    simpl app. rewrite lstrip_keeps by exact Hc'.
    rewrite lstrip_blank.
    + simpl. rewrite rev_involutive. reflexivity.
    + rewrite forallb_forall in *. intros x Hx. apply H2, in_rev, Hx.
Qed.

Section CompanyNameMatch.

Context {env : Env}.

Lemma cnpj_re_parts :
  cnpj_re = Re.lit cnpj_header ++ Re.Star isspace :: cnpj_body_re.
Proof. reflexivity. Qed.

Lemma digits_length (d : str) : digits_233 d -> length d = 10.
Proof. intros (a1 & a2 & b1 & b2 & b3 & c1 & c2 & c3 & -> & _). reflexivity. Qed.

Lemma cnpj_body_runs (s name : str) (i : nat) (mk : Re.marks) :
  cnpj_body s name -> exists r, Re.run cnpj_body_re s i mk = Some r.
Proof.
  intros (d & w2 & s3 & -> & (a1 & a2 & b1 & b2 & b3 & c1 & c2 & c3 & -> & Hd)
          & Hw2 & w3 & rest & -> & Hw3 & Hne & Hnl & _).
  destruct name as [|g0 g]; [congruence|].
  simpl in Hd, Hnl. rewrite !andb_true_iff in Hd. rewrite andb_true_iff in Hnl.
  destruct Hd as (Ha1 & Ha2 & Hb1 & Hb2 & Hb3 & Hc1 & Hc2 & Hc3 & _).
  destruct Hnl as [Hg0 Hg].
  apply chain_run. cbn -[Re.run].
  do 2 (do 2 eexists; split; [reflexivity|]; split; [assumption|]).
  eexists; split; [reflexivity|].
  do 3 (do 2 eexists; split; [reflexivity|]; split; [assumption|]).
  eexists; split; [reflexivity|].
  do 3 (do 2 eexists; split; [reflexivity|]; split; [assumption|]).
  exists w2. eexists. split; [reflexivity|]. split; [exact Hw2|].
  eexists; split; [reflexivity|].
  exists w3. eexists. split; [reflexivity|]. split; [exact Hw3|].
  do 2 eexists; split; [reflexivity|]; split; [exact Hg0|].
  exists g, rest. auto.
Qed.

(** What a match of the part after the first blanks has taken. *)
Lemma cnpj_body_sound (s : str) (i : nat) (mk : Re.marks) (r : nat * Re.marks) :
  Re.run cnpj_body_re s i mk = Some r ->
  exists d w2 w3 name rest,
    s = d ++ w2 ++ dash :: w3 ++ name ++ rest
    /\ digits_233 d /\ forallb isspace w2 = true /\ forallb isspace w3 = true
    /\ name <> [] /\ forallb not_newline name = true /\ line_end rest
    /\ (forall w' s', w3 ++ name ++ rest = w' ++ s' ->
                      forallb isspace w' = true ->
                      length w3 < length w' -> line_end s')
    /\ Re.lookup 2 (snd r) = Some (i + 10 + length w2 + 1 + length w3)
    /\ Re.lookup 3 (snd r)
       = Some (i + 10 + length w2 + 1 + length w3 + length name).
Proof.
  unfold cnpj_body_re. intros H. apply run_app_chain in H.
  cbn -[Re.run] in H.
  destruct H as (a1 & s6 & -> & Ha1 & a2 & s7 & -> & Ha2 & s8 & -> &
                 b1 & s9 & -> & Hb1 & b2 & s10 & -> & Hb2 &
                 b3 & s11 & -> & Hb3 & s12 & -> &
                 c1 & s13 & -> & Hc1 & c2 & s14 & -> & Hc2 &
                 c3 & s15 & -> & Hc3 &
                 w2 & s16 & -> & Hw2 & s17 & -> & Hstar).
  apply run_star_greedy in Hstar as (w3 & s18 & -> & Hw3 & Hr & Hg).
  rewrite tail_run in Hr. destruct s18 as [|g0 s19]; [discriminate|].
  destruct (not_newline g0) eqn:Hg0; [|discriminate]. injection Hr as <-.
  destruct (takewhile_split not_newline s19) as (rest & E & Hall & Hrest).
  set (tw := takewhile not_newline s19) in *.
  exists [a1; a2; dot; b1; b2; b3; dot; c1; c2; c3], w2, w3, (g0 :: tw), rest.
  split; [rewrite E at 1; reflexivity|].
  split.
  { exists a1, a2, b1, b2, b3, c1, c2, c3. split; [reflexivity|].
    simpl. rewrite Ha1, Ha2, Hb1, Hb2, Hb3, Hc1, Hc2, Hc3. reflexivity. }
  split; [exact Hw2|]. split; [exact Hw3|]. split; [discriminate|].
  split; [simpl; rewrite Hg0; exact Hall|].
  split.
  { destruct Hrest as [-> | (c & rest' & -> & Hc)]; [left; reflexivity|].
    right. exists rest'. rewrite (not_newline_false _ Hc). reflexivity. }
  split.
  { intros w' s' E' Hw' Hlt. eapply tail_run_none, (Hg w' s'); try assumption.
    rewrite E. exact E'. }
  cbn [snd Re.lookup Nat.eqb]. simpl length. split; f_equal; lia.
Qed.

(** What a match of the whole pattern has taken. *)
Lemma cnpj_run_sound (v : str) (i : nat) (m : nat * Re.marks) :
  Re.run cnpj_re v i [] = Some m ->
  exists w1 d w2 w3 name rest,
    v = cnpj_header ++ w1 ++ d ++ w2 ++ dash :: w3 ++ name ++ rest
    /\ forallb isspace w1 = true
    /\ digits_233 d /\ forallb isspace w2 = true /\ forallb isspace w3 = true
    /\ name <> [] /\ forallb not_newline name = true /\ line_end rest
    /\ (forall w' s', w3 ++ name ++ rest = w' ++ s' ->
                      forallb isspace w' = true ->
                      length w3 < length w' -> line_end s')
    /\ (forall w' s', w1 ++ d ++ w2 ++ dash :: w3 ++ name ++ rest = w' ++ s' ->
                      forallb isspace w' = true ->
                      length w1 < length w' -> forall n, ~ cnpj_body s' n)
    /\ Re.lookup 2 (snd m)
       = Some (i + 5 + length w1 + 10 + length w2 + 1 + length w3)
    /\ Re.lookup 3 (snd m)
       = Some (i + 5 + length w1 + 10 + length w2 + 1 + length w3 + length name).
Proof.
  rewrite cnpj_re_parts. intros H. apply run_app_chain in H.
  cbn -[Re.run cnpj_body_re] in H.
  destruct H as (s0 & -> & s1 & -> & s2 & -> & s3 & -> & s4 & -> & Hstar).
  apply run_star_greedy in Hstar as (w1 & s5 & -> & Hw1 & Hr & Hg).
  destruct (cnpj_body_sound _ _ _ Hr)
    as (d & w2 & w3 & name & rest & -> & Hd & Hw2 & Hw3 & Hne & Hnl & Hend
        & Hg3 & Hl2 & Hl3).
  exists w1, d, w2, w3, name, rest.
  split; [reflexivity|].
  do 8 (split; [assumption|]).
  split.
  - intros w' s' E Hw' Hlt n Hn.
    destruct (@cnpj_body_runs s' n (S (S (S (S (S i)))) + length w') [] Hn)
      as [r Hr'].
    rewrite (Hg w' s' E Hw' Hlt) in Hr'. discriminate.
  - rewrite Hl2, Hl3. split; f_equal; lia.
Qed.

Lemma cnpj_body_of_parts (d w2 w3 name rest : str) :
  digits_233 d -> forallb isspace w2 = true -> forallb isspace w3 = true ->
  name <> [] -> forallb not_newline name = true -> line_end rest ->
  (forall w' s', w3 ++ name ++ rest = w' ++ s' -> forallb isspace w' = true ->
                 length w3 < length w' -> line_end s') ->
  cnpj_body (d ++ w2 ++ dash :: w3 ++ name ++ rest) name.
Proof.
  intros Hd Hw2 Hw3 Hne Hnl Hend Hg.
  exists d, w2, (w3 ++ name ++ rest). split; [reflexivity|].
  split; [exact Hd|]. split; [exact Hw2|].
  exists w3, rest. auto 7.
Qed.

(** A match makes a header. *)
Lemma cnpj_run_line (u v : str) (i : nat) (m : nat * Re.marks) :
  Re.run cnpj_re v i [] = Some m ->
  exists n, cnpj_line_at (u ++ v) (length u) n.
Proof.
  intros H.
  destruct (cnpj_run_sound _ _ H)
    as (w1 & d & w2 & w3 & name & rest & -> & Hw1 & Hd & Hw2 & Hw3 & Hne & Hnl
        & Hend & _).
  exists name, u, w1, d, w2, w3, rest.
  split; [reflexivity|]. repeat split; assumption.
Qed.

(** What [re.search] finds: the first match, and group 2 is its name. *)
Lemma cnpj_search_match (text : str) (m : nat * Re.marks) :
  Re.search cnpj_re text = Some m ->
  exists name, Re.group text m 2 = Some name /\ cnpj_match_first text name.
Proof.
  unfold Re.search. intros H.
  apply search_from_some in H as (u & v & -> & Hv & Hleft).
  assert (Hmin : forall j n, cnpj_line_at (u ++ v) j n -> length u <= j).
  { intros j n Hj. destruct (cnpj_line_run Hj) as (u' & v' & E & Hu' & r & Hr).
    destruct (Nat.le_gt_cases (length u) j) as [|Hlt]; [assumption|].
    rewrite (Hleft u' v' E) in Hr by lia. discriminate. }
  destruct (cnpj_run_sound _ _ Hv)
    as (w1 & d & w2 & w3 & name & rest & -> & Hw1 & Hd & Hw2 & Hw3 & Hne & Hnl
        & Hend & Hg3 & Hg1 & Hl2 & Hl3).
  exists name. split.
  - unfold Re.group. change (2 * 2 - 2) with 2. change (2 * 2 - 1) with 3.
    rewrite Hl2, Hl3. f_equal.
    replace (u ++ cnpj_header ++ w1 ++ d ++ w2 ++ dash :: w3 ++ name ++ rest)
      with ((u ++ cnpj_header ++ w1 ++ d ++ w2 ++ dash :: w3) ++ name ++ rest).
    + apply window_exact; [|lia].
      rewrite !length_app. simpl length. rewrite ?length_app.
      rewrite (digits_length Hd). simpl length. lia.
    + rewrite <- !app_assoc. simpl. rewrite <- ?app_assoc. simpl.
      rewrite <- ?app_assoc. reflexivity.
  - exists (length u). split; [|exact Hmin].
    exists u, w1, (d ++ w2 ++ dash :: w3 ++ name ++ rest).
    split; [reflexivity|]. split; [reflexivity|]. split; [exact Hw1|].
    split; [apply cnpj_body_of_parts; assumption | exact Hg1].
Qed.

Lemma cnpj_match_line (text : str) (k : nat) (name : str) :
  cnpj_match_at text k name -> cnpj_line_at text k name.
Proof.
  intros (pre & w1 & s1 & -> & Hk & Hw1
          & (d & w2 & s3 & -> & Hd & Hw2
             & w3 & rest & -> & Hw3 & Hne & Hnl & Hend & _) & _).
  exists pre, w1, d, w2, w3, rest.
  split; [reflexivity|]. repeat split; assumption.
Qed.

Lemma cnpj_body_unique (s name name' : str) :
  cnpj_body s name -> cnpj_body s name' -> name = name'.
Proof.
  intros (d & w2 & s3 & E & Hd & Hw2 & Hn) (d' & w2' & s3' & E' & Hd' & Hw2' & Hn').
  rewrite E in E'.
  destruct (app_same_length _ _ _ _ E') as [_ E2].
  { rewrite (digits_length Hd), (digits_length Hd'). reflexivity. }
  destruct (@blank_prefix_unique isspace dash _ _ _ _ dash_not_blank Hw2 Hw2' E2)
    as [_ <-].
  exact (cnpj_name_unique Hn Hn').
Qed.

Lemma cnpj_match_at_unique (text : str) (k : nat) (name name' : str) :
  cnpj_match_at text k name -> cnpj_match_at text k name' -> name = name'.
Proof.
  intros (pre & w1 & s1 & E & Hk & Hw1 & Hb & Hg)
         (pre' & w1' & s1' & E' & Hk' & Hw1' & Hb' & Hg').
  rewrite E in E'.
  destruct (app_same_length _ _ _ _ E') as [_ E2]; [congruence|].
  apply app_inv_head in E2.
  assert (Hlen : length w1 = length w1').
  { destruct (Nat.lt_trichotomy (length w1) (length w1')) as [Hlt | [Heq | Hlt]];
      [exfalso | exact Heq | exfalso].
    - exact (Hg w1' s1' E2 Hw1' Hlt name' Hb').
    - exact (Hg' w1 s1 (eq_sym E2) Hw1 Hlt name Hb). }
  destruct (app_same_length _ _ _ _ E2 Hlen) as [_ <-].
  exact (cnpj_body_unique Hb Hb').
Qed.

Lemma cnpj_match_first_unique (text name name' : str) :
  cnpj_match_first text name -> cnpj_match_first text name' -> name = name'.
Proof.
  intros (k & Hk & Hmin) (k' & Hk' & Hmin').
  assert (E : k = k').
  { pose proof (Hmin _ _ (cnpj_match_line Hk')).
    pose proof (Hmin' _ _ (cnpj_match_line Hk)). lia. }
  subst k'. exact (cnpj_match_at_unique Hk Hk').
Qed.

Lemma search_from_skip (re : list Re.node) (pre s : str) :
  (forall u' v', pre ++ s = u' ++ v' -> length u' < length pre ->
                 forall i, Re.run re v' i [] = None) ->
  forall i, Re.search_from re (pre ++ s) i = Re.search_from re s (i + length pre).
Proof.
  induction pre as [|c pre IH]; intros H i.
  - simpl. rewrite Nat.add_0_r. reflexivity.
  - simpl app. rewrite search_from_cons.
    rewrite (H [] (c :: pre ++ s) eq_refl) by (simpl; lia).
    rewrite IH.
    + simpl length. f_equal. lia.
    + intros u' v' E Hlt j.
      apply (H (c :: u') v'); [simpl; congruence | simpl; lia].
Qed.

(** The header line of the specification's example, wherever it is the
    first header of the page. *)
Lemma acme_first (pre post : str) :
  (forall j n, j < length pre ->
               ~ cnpj_line_at (pre ++ acme_line ++ newline :: post) j n) ->
  exists m,
    Re.search cnpj_re (pre ++ acme_line ++ newline :: post) = Some m
    /\ group2_strip (pre ++ acme_line ++ newline :: post) m = Ok acme_ltda.
Proof.
  intros Hno. unfold Re.search. rewrite search_from_skip.
  - eexists. split; [apply search_from_hit, acme_run|].
    unfold group2_strip, Re.group.
    change (2 * 2 - 2) with 2. change (2 * 2 - 1) with 3.
    cbn [snd Re.lookup Nat.eqb].
    replace (pre ++ acme_line ++ newline :: post)
      with ((pre ++ firstn 19 acme_line) ++ acme_ltda ++ newline :: post)
      by (rewrite <- app_assoc; reflexivity).
    rewrite window_exact; [reflexivity| |].
    + rewrite length_app. simpl. lia.
    + simpl. lia.
  - intros u' v' E Hlt i.
    destruct (Re.run cnpj_re v' i []) as [m|] eqn:Hr; [|reflexivity].
    exfalso. destruct (cnpj_run_line u' _ _ Hr) as [n Hn].
    rewrite <- E in Hn. exact (Hno _ _ Hlt Hn).
Qed.

Lemma search_pages_skip (skipped pages : list page) :
  Forall no_match skipped -> search_pages (skipped ++ pages) = search_pages pages.
Proof.
  induction 1 as [|pg skipped (t & -> & Hno) _ IH]; [reflexivity|].
  simpl app. rewrite search_pages_miss; [exact IH|].
  destruct (Re.search cnpj_re (or_empty t)) as [m|] eqn:Hs; [|reflexivity].
  destruct (cnpj_search_match _ Hs) as (name & _ & k & Hk & _).
  exfalso. exact (Hno _ _ (cnpj_match_line Hk)).
Qed.

(** No header starts before offset [n] when the matcher fails at each
    of these offsets. *)
Lemma no_match_before_spec (text : str) (n : nat) :
  no_match_before text n = true ->
  forall j name, j < n -> ~ cnpj_line_at text j name.
Proof.
  unfold no_match_before. rewrite forallb_forall. intros H j name Hj Hl.
  destruct (cnpj_line_run Hl) as (u & v & E & Hu & r & Hr).
  assert (Hv : v = skipn j text).
  { rewrite E, <- Hu, skipn_app, skipn_all, Nat.sub_diag. reflexivity. }
  assert (Hin : In j (seq 0 n)) by (apply in_seq; lia).
  apply H in Hin. cbv beta in Hin.
  change (0 + length u) with (length u) in Hr. rewrite Hu, Hv in Hr.
  rewrite Hr in Hin. discriminate.
Qed.

(** C6. The company name is looked for in the first two pages, page by
    page.  A page matches when it holds a header "CNPJ:", blanks, a
    2-3-3 digit group, blanks, a dash, blanks and a non-empty text
    running to the end of its line.  The result is then taken from the
    first match of the first matching page, whatever the later pages
    are: the text that group 2 takes of the leftmost header, each run of
    blanks of the pattern being the longest after which the pattern goes
    on, with the white space around that text removed.  Both the text
    and what is left of it are determined by the page.  A page without
    such a header is skipped, and with no page left the result is
    absent.  The loop inlined in [process_pdf] is the same search.  On
    a page that holds "CNPJ: 12.345.678 - ACME LTDA" followed by a
    newline, with no header starting before that line and only pages
    without a header before that page, the result is "ACME LTDA". *)
Theorem company_name_first_match :
  (forall file_bytes pdf,
      pdfplumber_open file_bytes = Ok pdf ->
      extract_company_name_from_bytes file_bytes = search_pages (firstn 2 pdf))
  /\ (forall t rest,
        (exists k n, cnpj_line_at (or_empty t) k n) ->
        exists name res,
          cnpj_match_first (or_empty t) name
          /\ trim_of name res
          /\ search_pages (Ok t :: rest) = Ok (Some res))
  /\ (forall text name name',
        cnpj_match_first text name -> cnpj_match_first text name' -> name = name')
  /\ (forall name res res', trim_of name res -> trim_of name res' -> res = res')
  /\ (forall t rest,
        (forall k n, ~ cnpj_line_at (or_empty t) k n) ->
        search_pages (Ok t :: rest) = search_pages rest)
  /\ search_pages [] = Ok None
  /\ (forall pages, empresa_loop pages None = search_pages pages)
  /\ (forall skipped pre post rest,
        Forall no_match skipped ->
        (forall j n, j < length pre ->
                     ~ cnpj_line_at (pre ++ acme_line ++ newline :: post) j n) ->
        search_pages
          (skipped ++ Ok (Some (pre ++ acme_line ++ newline :: post)) :: rest)
        = Ok (Some acme_ltda)).
Proof.
  split; [|split; [|split; [|split; [|split; [|split; [|split]]]]]].
  - intros file_bytes pdf H. unfold extract_company_name_from_bytes.
    rewrite H. reflexivity.
  - intros t rest (k & n & Hk).
    destruct (Re.search cnpj_re (or_empty t)) as [m|] eqn:Hs.
    + destruct (cnpj_search_match _ Hs) as (name & Hg & Hf).
      exists name, (strip name). split; [exact Hf|].
      split; [exact (strip_spec name)|].
      cbn [search_pages bind]. rewrite Hs. unfold group2_strip. rewrite Hg.
      reflexivity.
    + exfalso. eapply cnpj_search_none; eassumption.
  - exact cnpj_match_first_unique.
  - intros name res res' H H'.
    rewrite (trim_of_strip H), (trim_of_strip H'). reflexivity.
  - intros t rest Hno. apply search_pages_miss.
    destruct (Re.search cnpj_re (or_empty t)) as [m|] eqn:Hs; [|reflexivity].
    destruct (cnpj_search_match _ Hs) as (name & _ & k & Hk & _).
    exfalso. exact (Hno _ _ (cnpj_match_line Hk)).
  - reflexivity.
  - exact empresa_loop_search_pages.
  - intros skipped pre post rest Hskip Hno.
    rewrite (search_pages_skip _ Hskip).
    destruct (@acme_first pre post Hno) as (m & Hs & Hg).
    cbn [search_pages bind or_empty]. rewrite Hs, Hg. reflexivity.
Qed.

End CompanyNameMatch.

Lemma company_name_first_match_witness :
  (exists k n, @cnpj_line_at toy_env Demo.page_wrapped k n)
  /\ @search_pages toy_env [Ok (Some Demo.page_wrapped); Raise []]
     = Ok (Some acme_ltda)
  /\ Forall (@no_match toy_env) [Ok None]
  /\ (forall j n,
        j < length Demo.pre_cnpj ->
        ~ @cnpj_line_at toy_env
            (Demo.pre_cnpj ++ acme_line ++ newline :: Demo.header_post) j n)
  /\ @search_pages toy_env
       [Ok None;
        Ok (Some (Demo.pre_cnpj ++ acme_line ++ newline :: Demo.header_post));
        Raise []]
     = Ok (Some acme_ltda).
Proof.
  destruct (@company_name_first_match toy_env)
    as (_ & Hhit & Huniq & Htrim & _ & _ & _ & Hacme).
  assert (Hd : @digits_233 toy_env (utf8 "12.345.678")).
  { exists 49%N, 50%N, 51%N, 52%N, 53%N, 54%N, 55%N, 56%N.
    split; reflexivity. }
  assert (Hline : exists k n, @cnpj_line_at toy_env Demo.page_wrapped k n).
  { exists 0, Demo.name_wrapped, [], [32%N], (utf8 "12.345.678"), [32%N],
      [32%N; newline; 32%N], (newline :: utf8 "fim").
    split; [reflexivity|]. split; [reflexivity|].
    do 3 (split; [reflexivity|]). split; [exact Hd|].
    split; [discriminate|]. split; [reflexivity|].
    right. eexists. reflexivity. }
  split; [exact Hline|]. split.
  - destruct (Hhit (Some Demo.page_wrapped) [Raise []] Hline)
      as (name & res & Hf & Ht & Hs).
    assert (Hf0 : @cnpj_match_first toy_env Demo.page_wrapped Demo.name_wrapped).
    { exists 0. split; [|intros; lia].
      exists [], [32%N], (skipn 6 Demo.page_wrapped).
      split; [reflexivity|]. split; [reflexivity|]. split; [reflexivity|].
      split.
      - exists (utf8 "12.345.678"), [32%N], (skipn 18 Demo.page_wrapped).
        split; [reflexivity|]. split; [exact Hd|]. split; [reflexivity|].
        exists [32%N; newline; 32%N], (newline :: utf8 "fim").
        split; [reflexivity|]. split; [reflexivity|].
        split; [discriminate|]. split; [reflexivity|].
        split; [right; eexists; reflexivity|].
        intros w' s' E Hw Hlt.
        destruct w' as [|a [|b [|c [|d w']]]]; simpl in Hlt; try lia.
        cbv in E. injection E as <- <- <- <- _. discriminate Hw.
      - intros w' s' E Hw Hlt n.
        destruct w' as [|a [|b w']]; simpl in Hlt; try lia.
        cbv in E. injection E as <- <- _. discriminate Hw. }
    assert (Ht0 : trim_of Demo.name_wrapped acme_ltda).
    { exists [], [32%N; 13%N]. split; [reflexivity|].
      split; [reflexivity|]. split; [reflexivity|]. right. reflexivity. }
    rewrite (Huniq _ _ _ Hf Hf0) in Ht. rewrite (Htrim _ _ _ Ht0 Ht).
    exact Hs.
  - assert (Hskip : Forall (@no_match toy_env) [Ok None]).
    { constructor; [|constructor]. exists None. split; [reflexivity|].
      intros k n (pre & w1 & d & w2 & w3 & rest & E & _).
      destruct pre; discriminate E. }
    assert (Hno : forall j n,
               j < length Demo.pre_cnpj ->
               ~ @cnpj_line_at toy_env
                   (Demo.pre_cnpj ++ acme_line ++ newline :: Demo.header_post) j n).
    { apply no_match_before_spec. vm_compute. reflexivity. }
    split; [exact Hskip|]. split; [exact Hno|].
    exact (Hacme [Ok None] Demo.pre_cnpj Demo.header_post [Raise []] Hskip Hno).
Defined.

(** ** The search box *)

Lemma re_split_nonempty (p : char -> bool) (s : str) : re_split p s <> [].
Proof.
  destruct s as [|c s]; simpl; [discriminate|].
  destruct (p c); [discriminate|]. destruct (re_split p s); discriminate.
Qed.

(** The pieces hold the characters that are not separators. *)
Lemma re_split_pieces (p q : char -> bool) (s : str) :
  Forall (fun piece => forallb q piece = true) (re_split p s)
  <-> forallb (fun c => p c || q c) s = true.
Proof.
  induction s as [|c s IH]; simpl.
  - split; [reflexivity | intros _; repeat constructor].
  - destruct (p c) eqn:Hp; simpl.
    + rewrite <- IH. split.
      * intros H. inversion H. assumption.
      * intros H. constructor; [reflexivity | exact H].
    + pose proof (re_split_nonempty p s) as Hne.
      destruct (re_split p s) as [|piece rest]; [congruence|].
      rewrite andb_true_iff, <- IH. split.
      * intros H. inversion H as [|? ? Hc Hrest]; subst. simpl in Hc.
        apply andb_true_iff in Hc as [Hq Hpiece]. split; [exact Hq|].
        constructor; assumption.
      * intros [Hq H]. inversion H as [|? ? Hpiece Hrest]; subst.
        constructor; [simpl; rewrite Hq; exact Hpiece | exact Hrest].
Qed.

Lemma re_split_no_separator (s : str) :
  Forall (fun piece => no_separator piece = true) (re_split is_separator s).
Proof.
  apply re_split_pieces. apply forallb_forall. intros c _.
  destruct (is_separator c); reflexivity.
Qed.

Lemma re_split_sep (p : char -> bool) (a s : str) (c : char) :
  forallb (fun x => negb (p x)) a = true -> p c = true ->
  re_split p (a ++ c :: s) = a :: re_split p s.
Proof.
  intros Ha Hc. induction a as [|x a IH]; simpl.
  - rewrite Hc. reflexivity.
  - simpl in Ha. apply andb_true_iff in Ha as [Hx Ha].
    apply negb_true_iff in Hx. rewrite Hx, (IH Ha). reflexivity.
Qed.

Lemma re_split_whole (p : char -> bool) (a : str) :
  forallb (fun x => negb (p x)) a = true -> re_split p a = [a].
Proof.
  induction a as [|x a IH]; simpl; [reflexivity|].
  intros Ha. apply andb_true_iff in Ha as [Hx Ha].
  apply negb_true_iff in Hx. rewrite Hx, (IH Ha). reflexivity.
Qed.

Lemma trimmed_nonempty (s : str) : trimmed s = true -> nonempty s = true.
Proof. destruct s; [discriminate | reflexivity]. Qed.

Lemma filter_nil_iff (A : Type) (f : A -> bool) (l : list A) :
  filter f l = [] <-> Forall (fun x => f x = false) l.
Proof.
  induction l as [|x l IH]; simpl.
  - split; [constructor | reflexivity].
  - destruct (f x) eqn:Hx.
    + split; [discriminate | intros H; inversion H; congruence].
    + rewrite IH. split; [intros H; constructor; assumption | intros H; inversion H; assumption].
Qed.

(** X1. Every search term taken from the search box is non-empty, has
    no white space at either end and holds no comma, vertical bar or
    newline. *)
Theorem search_terms_are_clean (search_input t : str) :
  In t (parse_search_terms search_input) ->
  trimmed t = true /\ no_separator t = true.
Proof.
  unfold parse_search_terms. destruct (nonempty search_input); [|intros []].
  cbv zeta. intros H. apply in_map_iff in H as (piece & <- & Hin).
  apply filter_In in Hin as [Hin Hne]. split.
  - destruct (strip_spec piece) as (_ & _ & _ & _ & _ & [Hnil | Ht]); [|exact Ht].
    rewrite Hnil in Hne. discriminate.
  - apply strip_forallb.
    pose proof (re_split_no_separator search_input) as Hall.
    rewrite Forall_forall in Hall. apply Hall, Hin.
Qed.

Lemma parse_blank (search_input : str) :
  parse_search_terms search_input = []
  <-> forallb (fun c => is_separator c || isspace c) search_input = true.
Proof.
  unfold parse_search_terms. destruct search_input as [|c s]; [simpl; tauto|].
  cbv zeta. cbn [nonempty]. rewrite <- re_split_pieces. split.
  - intros H. apply map_eq_nil, filter_nil_iff in H.
    rewrite Forall_forall in *. intros piece Hin. specialize (H _ Hin).
    apply strip_blank. destruct (strip piece); [reflexivity | discriminate].
  - intros H.
    match goal with
    | |- map strip ?l = [] => assert (E : l = []); [|rewrite E; reflexivity]
    end.
    apply filter_nil_iff.
    rewrite Forall_forall in *. intros piece Hin. specialize (H _ Hin).
    apply strip_blank in H. rewrite H. reflexivity.
Qed.

(** X2. The search box gives no term at all exactly when its text is
    made of separators and white space only (the empty text
    included). *)
Theorem blank_search_gives_no_terms (search_input : str) :
  parse_search_terms search_input = []
  <-> forallb (fun c => is_separator c || isspace c) search_input = true.
Proof. exact (parse_blank search_input). Qed.

Lemma join_cons (sep a b : str) (rest : list str) :
  join sep (a :: b :: rest) = a ++ sep ++ join sep (b :: rest).
Proof. reflexivity. Qed.

Lemma split_joined (pre : str) (terms : list str) :
  terms <> [] ->
  forallb isspace pre = true -> no_separator pre = true ->
  Forall (fun t => trimmed t = true /\ no_separator t = true) terms ->
  map strip (filter (fun term => nonempty (strip term))
               (re_split is_separator (pre ++ join comma_space terms)))
  = terms.
Proof.
  intros Hne Hsp Hns Hall. revert pre Hsp Hns.
  induction Hall as [|a rest [Ha Hsa] Hrest IH]; [congruence|]; intros pre Hsp Hns.
  assert (Hstrip : strip (pre ++ a) = a) by (apply strip_trimmed; assumption).
  destruct rest as [|b rest].
  - cbn [join]. rewrite re_split_whole.
    + cbn [filter]. cbv beta. rewrite Hstrip, (trimmed_nonempty _ Ha).
      cbn [map]. rewrite Hstrip. reflexivity.
    + unfold no_separator in *. rewrite forallb_app, Hns. exact Hsa.
  - rewrite join_cons.
    replace (pre ++ a ++ comma_space ++ join comma_space (b :: rest))
      with ((pre ++ a) ++ 44%N :: ([32%N] ++ join comma_space (b :: rest)))
      by (rewrite <- !app_assoc; reflexivity).
    rewrite re_split_sep.
    + cbn [filter]. cbv beta. rewrite Hstrip, (trimmed_nonempty _ Ha).
      cbn [map]. rewrite Hstrip.
      f_equal. apply IH; [discriminate | reflexivity | reflexivity].
    + unfold no_separator in *. rewrite forallb_app, Hns. exact Hsa.
    + reflexivity.
Qed.

(** X3. Writing clean terms (non-empty, no surrounding white space, no
    separator) with ", " between them, as the "no company found"
    message does, and reading that text back through the search box
    gives the same terms. *)
Theorem search_terms_round_trip (terms : list str) :
  Forall (fun t => trimmed t = true /\ no_separator t = true) terms ->
  parse_search_terms (join comma_space terms) = terms.
Proof.
  intros Hall. destruct terms as [|a rest]; [reflexivity|].
  unfold parse_search_terms.
  assert (Hne : nonempty (join comma_space (a :: rest)) = true).
  { inversion Hall as [|? ? [Ha _] _]; subst.
    destruct a; [discriminate|]. cbn [join]. destruct rest; reflexivity. }
  rewrite Hne. cbv zeta.
  change (join comma_space (a :: rest)) with ([] ++ join comma_space (a :: rest)).
  apply split_joined; [discriminate | reflexivity | reflexivity | exact Hall].
Qed.

(** ** Where the markers must lie *)

Lemma first_occ_unique (sub s : str) (k1 k2 : nat) :
  first_occ sub s k1 -> first_occ sub s k2 -> k1 = k2.
Proof.
  intros [H1 M1] [H2 M2]. specialize (M1 _ H2). specialize (M2 _ H1). lia.
Qed.

Lemma occurs_at_skipn (sub s : str) (p j : nat) :
  p <= length s ->
  occurs_at sub (skipn p s) j <-> occurs_at sub s (p + j).
Proof.
  intros Hp. split.
  - intros (u & v & E & Hu). exists (firstn p s ++ u), v. split.
    + rewrite <- app_assoc, <- E. symmetry. apply firstn_skipn.
    + rewrite length_app, length_firstn. lia.
  - intros (u & v & -> & Hu). exists (skipn p u), v. split.
    + rewrite skipn_app. replace (p - length u) with 0 by lia. reflexivity.
    + rewrite length_skipn. lia.
Qed.

Lemma occurs_at_firstn (sub s : str) (n j : nat) :
  occurs_at sub (firstn n s) j <-> occurs_at sub s j /\ j + length sub <= n.
Proof.
  split.
  - intros H. pose proof (occurs_at_bound H) as Hb.
    rewrite length_firstn in Hb. split; [|lia].
    destruct H as (u & v & E & Hu). exists u, (v ++ skipn n s). split; [|exact Hu].
    rewrite <- (firstn_skipn n s) at 1. rewrite E, <- !app_assoc. reflexivity.
  - intros [(u & v & -> & Hu) Hn]. exists u, (firstn (n - length u - length sub) v).
    split; [|exact Hu].
    rewrite firstn_app, (firstn_all2 u) by lia.
    rewrite firstn_app, (firstn_all2 sub) by lia. reflexivity.
Qed.

Lemma occurs_at_app_l (sub text s : str) (k : nat) :
  occurs_at sub text k -> occurs_at sub (text ++ s) k.
Proof.
  intros (u & v & -> & Hu). exists u, (v ++ s). split; [|exact Hu].
  rewrite <- !app_assoc. reflexivity.
Qed.

Lemma occurs_at_app_inv (sub text s : str) (j : nat) :
  occurs_at sub (text ++ s) j -> j + length sub <= length text ->
  occurs_at sub text j.
Proof.
  intros H Hj.
  assert (H' : occurs_at sub (firstn (length text) (text ++ s)) j)
    by (apply occurs_at_firstn; auto).
  rewrite firstn_app, Nat.sub_diag, firstn_all in H'. simpl in H'.
  rewrite app_nil_r in H'. exact H'.
Qed.

Lemma first_occ_app (sub text s : str) (k : nat) :
  first_occ sub text k -> first_occ sub (text ++ s) k.
Proof.
  intros [Hk Hmin]. split; [apply occurs_at_app_l, Hk|].
  intros j Hj. destruct (Nat.le_gt_cases k j) as [|Hlt]; [assumption|].
  pose proof (occurs_at_bound Hk). apply Hmin.
  apply (occurs_at_app_inv _ _ Hj). lia.
Qed.

Lemma pgfn_flag_spec (text : str) :
  snd (analyze_text text) = true
  <-> exists p k, first_occ pgfn_title text p
                  /\ occurs_at pendencia_parcelamento text k /\ p <= k.
Proof.
  rewrite analyze_text_primary. unfold classify_primary. cbn [snd].
  unfold pgfn_section_of. cbv zeta.
  destruct (find_from_spec pgfn_title text 0) as [[Hc Hf] | (p0 & Hp0 & Hf)].
  - unfold find. rewrite Hf. cbn. split; [discriminate|].
    intros (p & k & [Hp _] & _). exfalso.
    assert (contains pgfn_title text = true) by (apply contains_iff; exists p; exact Hp).
    congruence.
  - rewrite (find_first Hp0).
    assert (Hfound : found (Z.of_nat p0) = true).
    { unfold found. destruct (Z.eqb_spec (Z.of_nat p0) (-1)); [lia | reflexivity]. }
    rewrite Hfound. pose proof (occurs_at_bound (proj1 Hp0)) as Hb.
    rewrite slice_from_nat by lia. rewrite contains_iff. split.
    + intros (j & Hj). apply occurs_at_skipn in Hj; [|lia].
      exists p0, (p0 + j). split; [exact Hp0|]. split; [exact Hj | lia].
    + intros (p & k & Hp & Hk & Hle).
      rewrite (first_occ_unique Hp Hp0) in Hle. exists (k - p0).
      apply occurs_at_skipn; [lia|]. replace (p0 + (k - p0)) with k by lia. exact Hk.
Qed.

(** X4. The PGFN flag is set exactly when "Pendência - Parcelamento"
    occurs somewhere at or after the first PGFN header; the RF header
    plays no part in it. *)
Theorem pgfn_flag_iff (text : str) :
  snd (analyze_text text) = true
  <-> exists p k, first_occ pgfn_title text p
                  /\ occurs_at pendencia_parcelamento text k /\ p <= k.
Proof. exact (pgfn_flag_spec text). Qed.

Lemma rf_flag_spec (text : str) :
  fst (analyze_text text) = true
  <-> exists r p k, first_occ rf_title text r /\ first_occ pgfn_title text p
                    /\ occurs_at em_parcelamento text k
                    /\ r <= k /\ k + length em_parcelamento <= p.
Proof.
  split.
  - intros Ht.
    destruct (header_cases text) as [(r & p & Hr & Hp & Hlt) | Hout].
    2: { rewrite analyze_text_primary in Ht. unfold classify_primary in Ht.
         cbn [fst] in Ht. rewrite (rf_section_out_of_order Hout) in Ht.
         discriminate. }
    revert Ht. rewrite analyze_text_primary. unfold classify_primary. cbn [fst].
    unfold rf_section_of. cbv zeta. rewrite (find_first Hr), (find_first Hp).
    destruct (found _ && found _); [|discriminate].
    pose proof (occurs_at_bound (proj1 Hr)). pose proof (occurs_at_bound (proj1 Hp)).
    rewrite slice_nat by lia. rewrite contains_iff. intros (j & Hj).
    apply occurs_at_firstn in Hj as [Hj Hle]. apply occurs_at_skipn in Hj; [|lia].
    exists r, p, (r + j).
    split; [exact Hr|]. split; [exact Hp|]. split; [exact Hj|]. lia.
  - intros (r & p & k & Hr & Hp & Hk & Hrk & Hkp).
    rewrite analyze_text_primary. unfold classify_primary. cbn [fst].
    unfold rf_section_of. cbv zeta. rewrite (find_first Hr), (find_first Hp).
    assert (Fr : found (Z.of_nat r) = true).
    { unfold found. destruct (Z.eqb_spec (Z.of_nat r) (-1)); [lia | reflexivity]. }
    assert (Fp : found (Z.of_nat p) = true).
    { unfold found. destruct (Z.eqb_spec (Z.of_nat p) (-1)); [lia | reflexivity]. }
    rewrite Fr, Fp. cbn [andb].
    pose proof (occurs_at_bound (proj1 Hr)). pose proof (occurs_at_bound (proj1 Hp)).
    rewrite slice_nat by lia. apply contains_iff. exists (k - r).
    apply occurs_at_firstn. split; [|lia].
    apply occurs_at_skipn; [lia|]. replace (r + (k - r)) with k by lia. exact Hk.
Qed.

(** X5. The RF flag is set exactly when an "EM PARCELAMENTO" lies
    entirely between the first RF header and the first PGFN header:
    it starts at or after the start of the former and ends at or before
    the start of the latter. *)
Theorem rf_flag_iff (text : str) :
  fst (analyze_text text) = true
  <-> exists r p k, first_occ rf_title text r /\ first_occ pgfn_title text p
                    /\ occurs_at em_parcelamento text k
                    /\ r <= k /\ k + length em_parcelamento <= p.
Proof. exact (rf_flag_spec text). Qed.

(** X6. Once the text holds a PGFN header, whatever is appended to it
    leaves the RF flag as it is and cannot clear the PGFN flag. *)
Theorem appended_text_after_pgfn (text s : str) :
  occurs pgfn_title text ->
  fst (analyze_text (text ++ s)) = fst (analyze_text text)
  /\ (snd (analyze_text text) = true -> snd (analyze_text (text ++ s)) = true).
Proof.
  intros Hocc. split.
  - assert (Hiff : fst (analyze_text (text ++ s)) = true
                   <-> fst (analyze_text text) = true).
    { rewrite !rf_flag_spec. split.
      - intros (r & p & k & Hr & Hp & Hk & Hrk & Hkp).
        apply contains_iff in Hocc.
        destruct (find_from_spec pgfn_title text 0) as [[Hc _] | (p0 & Hp0 & _)];
          [congruence|].
        rewrite (first_occ_unique Hp (first_occ_app s Hp0)) in *.
        pose proof (occurs_at_bound (proj1 Hp0)) as Hb.
        change (length pgfn_title) with 60 in Hb.
        change (length em_parcelamento) with 15 in Hkp.
        assert (Hk' : occurs_at em_parcelamento text k).
        { apply (occurs_at_app_inv _ _ Hk). change (length em_parcelamento) with 15. lia. }
        assert (Hr' : occurs_at rf_title text r).
        { apply (occurs_at_app_inv _ _ (proj1 Hr)). change (length rf_title) with 37. lia. }
        exists r, p0, k.
        split; [|split; [exact Hp0|]; split; [exact Hk'|];
                 change (length em_parcelamento) with 15; lia].
        split; [exact Hr'|].
        intros j Hj. apply (proj2 Hr). apply occurs_at_app_l, Hj.
      - intros (r & p & k & Hr & Hp & Hk & Hrk & Hkp).
        exists r, p, k.
        split; [exact (first_occ_app s Hr)|]. split; [exact (first_occ_app s Hp)|].
        split; [apply occurs_at_app_l, Hk|]. lia. }
    destruct (fst (analyze_text (text ++ s))), (fst (analyze_text text));
      try reflexivity; [symmetry; apply Hiff; reflexivity
                       | apply Hiff; reflexivity].
  - rewrite !pgfn_flag_spec. intros (p & k & Hp & Hk & Hle).
    exists p, k. split; [exact (first_occ_app s Hp)|].
    split; [apply occurs_at_app_l, Hk | exact Hle].
Qed.

(** ** Text and name extraction *)

Section Extraction.

Context {env : Env}.

Lemma text_loop_ok (ts : list (option str)) :
  forall text,
    text_loop (map Ok ts) text = Ok (text ++ concat (map page_text ts)).
Proof.
  induction ts as [|t ts IH]; intros text; cbn [map text_loop bind concat].
  - rewrite app_nil_r. reflexivity.
  - rewrite IH. unfold page_text at 2. rewrite <- !app_assoc. reflexivity.
Qed.

Lemma text_loop_raise (ts : list (option str)) (e : str) (rest : list page) :
  forall text, text_loop (map Ok ts ++ Raise e :: rest) text = Raise e.
Proof.
  induction ts as [|t ts IH]; intros text; cbn [map app text_loop bind].
  - reflexivity.
  - apply IH.
Qed.

(** X7. [extract_text_from_bytes] returns the texts of the pages in page
    order, each followed by a newline, a page without text giving the
    newline alone.  It fails with the error of the first page that
    fails, whatever the pages after it are, and with the error of the
    reader when the file cannot be opened. *)
Theorem extract_text_page_by_page (file_bytes : bytes) :
  (forall ts,
      PdfReader file_bytes = Ok (map Ok ts) ->
      extract_text_from_bytes file_bytes = Ok (concat (map page_text ts)))
  /\ (forall ts e rest,
        PdfReader file_bytes = Ok (map Ok ts ++ Raise e :: rest) ->
        extract_text_from_bytes file_bytes = Raise e)
  /\ (forall e,
        PdfReader file_bytes = Raise e ->
        extract_text_from_bytes file_bytes = Raise e).
Proof.
  unfold extract_text_from_bytes. repeat split.
  - intros ts H. rewrite H. cbn [bind]. apply text_loop_ok.
  - intros ts e rest H. rewrite H. cbn [bind]. apply text_loop_raise.
  - intros e H. rewrite H. reflexivity.
Qed.

(** X8. [process_pdf] is the two stand-alone extractors and
    [analyze_text] put together: when both extractions return it
    answers the extracted name with the flags of the extracted text and
    reports nothing.  When the text extraction fails, or it returns and
    the name extraction fails, the answer is (absent, false, false) with
    one report of that error, so a text that was read is not classified
    if the name search fails. *)
Theorem process_pdf_composes (file_bytes : bytes) :
  (forall text emp,
      extract_text_from_bytes file_bytes = Ok text ->
      extract_company_name_from_bytes file_bytes = Ok emp ->
      process_pdf file_bytes
      = (Ok (emp, fst (analyze_text text), snd (analyze_text text)), []))
  /\ (forall e,
        extract_text_from_bytes file_bytes = Raise e ->
        process_pdf file_bytes = (Ok (None, false, false), [erro_pdf ++ e]))
  /\ (forall text e,
        extract_text_from_bytes file_bytes = Ok text ->
        extract_company_name_from_bytes file_bytes = Raise e ->
        process_pdf file_bytes = (Ok (None, false, false), [erro_pdf ++ e])).
Proof.
  unfold process_pdf, process_pdf_try, extract_text_from_bytes,
    extract_company_name_from_bytes.
  destruct (PdfReader file_bytes) as [pages|e0]; cbn [bind].
  - destruct (text_loop pages []) as [text0|e0]; cbn [bind].
    + destruct (pdfplumber_open file_bytes) as [pdf|e1]; cbn [bind].
      * rewrite empresa_loop_search_pages.
        destruct (search_pages (firstn 2 pdf)) as [emp0|e2]; cbn [bind].
        -- repeat split; try discriminate.
           intros text emp H1 H2. injection H1 as <-. injection H2 as <-. reflexivity.
        -- repeat split; try discriminate.
           intros text e _ H. injection H as <-. reflexivity.
      * repeat split; try discriminate.
        intros text e _ H. injection H as <-. reflexivity.
    + repeat split; try discriminate. intros e H. injection H as <-. reflexivity.
  - repeat split; try discriminate. intros e H. injection H as <-. reflexivity.
Qed.

(** The name a page search returns is the stripped text of a header
    line. *)
Lemma search_pages_name (pages : list page) (name : str) :
  search_pages pages = Ok (Some name) ->
  exists g, name = strip g /\ forallb not_newline g = true.
Proof.
  induction pages as [|pg rest IH]; cbn [search_pages]; [discriminate|].
  destruct pg as [t|e]; cbn [bind]; [|discriminate].
  destruct (Re.search cnpj_re (or_empty t)) as [m|] eqn:Hs; [|exact IH].
  destruct (cnpj_search_sound _ Hs) as (g & Hg & k & Hline & _).
  unfold group2_strip. rewrite Hg. cbn [bind]. intros H. injection H as <-.
  exists g. split; [reflexivity|].
  destruct Hline as (pre & w1 & d & w2 & w3 & r & _ & _ & _ & _ & _ & _ & _ & Hnl & _).
  exact Hnl.
Qed.

Lemma process_pdf_name_clean (file_bytes : bytes) (name : str)
    (rf_parc pgfn_parc : bool) :
  fst (process_pdf file_bytes) = Ok (Some name, rf_parc, pgfn_parc) ->
  forallb not_newline name = true /\ (name = [] \/ trimmed name = true).
Proof.
  unfold process_pdf.
  destruct (process_pdf_try file_bytes) as [[[emp r] p]|e] eqn:Ht; cbn [fst];
    [|discriminate].
  intros H. injection H as -> _ _. revert Ht. unfold process_pdf_try.
  destruct (PdfReader file_bytes) as [pages|]; [cbn [bind] | discriminate].
  destruct (text_loop pages []) as [text|]; [cbn [bind] | discriminate].
  destruct (pdfplumber_open file_bytes) as [pdf|]; [cbn [bind] | discriminate].
  rewrite empresa_loop_search_pages.
  destruct (search_pages (firstn 2 pdf)) as [emp|] eqn:Hs; [cbn [bind] | discriminate].
  intros H. injection H as -> _ _.
  destruct (search_pages_name _ Hs) as (g & -> & Hnl). split.
  - apply strip_forallb, Hnl.
  - destruct (strip_spec g) as (_ & _ & _ & _ & _ & H). exact H.
Qed.

(** X9. In a batch, the company name of every record, which also names
    its renamed file, holds no newline and has no white space at either
    end. *)
Theorem record_names_are_clean (zf : ZipFile) (batch : Batch) (r : result) :
  processamento zf = Ok batch ->
  In r (all_results (dados batch)) ->
  trimmed (empresa r) = true /\ forallb not_newline (empresa r) = true.
Proof.
  intros Hp Hr.
  destruct (processamento_inv _ Hp) as (done & _ & _ & Hsub & E & _).
  rewrite E in Hr.
  destruct (batch_record_origin _ _ Hr) as (item & c & n & Hin & Hname & He & Hf).
  rewrite Forall_forall in Hsub. destruct (Hsub _ Hin) as (b & Hb & Hfb).
  rewrite Hf in Hfb. symmetry in Hfb.
  destruct (process_pdf_name_clean _ Hfb) as [Hnl [Hnil | Ht]]; [discriminate|].
  rewrite He. auto.
Qed.

End Extraction.

(** ** More on the batch *)

Section BatchMore.

Context {env : Env}.

Variable zf : ZipFile.

Lemma done_from_archive (done : list (Future * str)) (item : Future * str) :
  Permutation done (map (item_of zf) (pdf_files zf)) ->
  In item done ->
  exists info, In info (pdf_files zf) /\ item = item_of zf info.
Proof.
  intros Hperm Hin. apply (Permutation_in _ Hperm) in Hin.
  apply in_map_iff in Hin as (info & <- & Hinfo). eauto.
Qed.

(** X10. A batch that returns has counted every qualifying entry as
    processed and has written exactly one entry of the output archive
    for each of them. *)
Theorem batch_writes_every_pdf (batch : Batch) :
  processamento zf = Ok batch ->
  processed (dados batch) = length (pdf_files zf)
  /\ length (zout batch) = length (pdf_files zf).
Proof.
  intros Hp.
  destruct (processamento_inv _ Hp)
    as (done & Hperm & _ & Hsub & Hr & Hm & Hu & Hn & _ & Hz).
  pose proof (Permutation_length Hperm) as Hlen. rewrite length_map in Hlen.
  split; [congruence|].
  rewrite Hz. unfold write_zip. rewrite length_app, !length_map, Hm, Hu.
  rewrite <- (Forall2_length (batch_matched Hsub)).
  pose proof (Permutation_length (batch_partition Hsub)) as Hpart.
  rewrite length_app, !length_map in Hpart. exact (eq_trans Hpart Hlen).
Qed.

(** X11. Every entry of the output archive holds the bytes read from a
    qualifying entry of the input.  Its path is, ended at the first NUL
    character if there is one, either "nao_encontrados/" and that
    entry's own name, or "renomeados/" and the company name of a record
    of that entry followed by ".pdf"; a text without NUL is kept as it
    is. *)
Theorem written_bytes_come_from_input (batch : Batch) (path : str) (data : bytes) :
  processamento zf = Ok batch ->
  In (path, data) (zout batch) ->
  exists info,
    In info (pdf_files zf)
    /\ zf_read zf (zi_filename info) = Ok data
    /\ (path = arcname (nao_encontrados ++ zi_filename info)
        \/ exists r, In r (all_results (dados batch))
                     /\ filename r = zi_filename info
                     /\ path = arcname (renomeados ++ empresa r ++ dot_pdf))
    /\ forall s, no_nul s = true -> arcname s = s.
Proof.
  intros Hp Hin.
  destruct (processamento_inv _ Hp)
    as (done & Hperm & _ & Hsub & Hr & Hm & Hu & _ & _ & Hz).
  rewrite Hz in Hin. unfold write_zip in Hin. rewrite Hm, Hu, Hr in *.
  rewrite Forall_forall in Hsub.
  apply in_app_or in Hin as [Hin | Hin];
    apply in_map_iff in Hin as ([nm b] & E & Hin);
    unfold writestr in E; cbn [fst snd] in E; injection E as <- <-;
    apply in_flat_map in Hin as (item & Hitem & Hin);
    destruct (done_from_archive _ Hperm Hitem) as (info & Hinfo & ->);
    destruct (submitted_cases (Hsub _ Hitem))
      as (b' & emp & rf_parc & pgfn_parc & Hb & _ & _ & _
          & [(c & n & _ & Hrec & Hmat & Hun) | (_ & Hrec & Hmat & Hun)]);
    cbn [snd item_of] in *.
  - rewrite Hmat in Hin. destruct Hin as [E | []]. injection E as <- <-.
    exists info. split; [exact Hinfo|]. split; [exact Hb|].
    split; [|exact arcname_no_nul]. right.
    exists {| empresa := c :: n; rf := rf_parc; pgfn := pgfn_parc;
              filename := zi_filename info |}.
    split; [|split; reflexivity].
    apply in_flat_map. exists (item_of zf info). split; [exact Hitem|].
    rewrite Hrec. left. reflexivity.
  - rewrite Hmat in Hin. destruct Hin.
  - rewrite Hun in Hin. destruct Hin.
  - rewrite Hun in Hin. destruct Hin as [E | []]. injection E as <- <-.
    exists info. split; [exact Hinfo|]. split; [exact Hb|].
    split; [left; reflexivity | exact arcname_no_nul].
Qed.

(** X12. The order in which the futures complete only orders the
    output: for any other completion order the loop gives the same
    records, matched files and unmatched files up to a permutation, the
    same count of processed files, and again no loop error. *)
Theorem batch_order_independent (batch : Batch) (done' : list (Future * str)) :
  processamento zf = Ok batch ->
  Permutation done' (map (item_of zf) (pdf_files zf)) ->
  Permutation (all_results (dados batch)) (all_results (loop zf done' acc0))
  /\ Permutation (matched_files (dados batch)) (matched_files (loop zf done' acc0))
  /\ Permutation (unmatched_files (dados batch)) (unmatched_files (loop zf done' acc0))
  /\ processed (dados batch) = processed (loop zf done' acc0)
  /\ errors (loop zf done' acc0) = [].
Proof.
  intros Hp Hperm'.
  destruct (processamento_inv _ Hp)
    as (done & Hperm & Hread & Hsub & Hr & Hm & Hu & Hn & _ & _).
  assert (HP : Permutation done done')
    by (rewrite Hperm; symmetry; exact Hperm').
  assert (Hsub' : Forall (submitted zf) done').
  { apply Forall_forall. intros item Hin.
    destruct (done_from_archive _ Hperm' Hin) as (info & Hinfo & ->).
    apply item_of_submitted. rewrite Forall_forall in Hread. auto. }
  rewrite loop_spec. cbn. rewrite Hr, Hm, Hu, Hn, (batch_no_errors Hsub').
  repeat split; try (apply Permutation_flat_map, HP).
  apply Permutation_length, HP.
Qed.




End BatchMore.

(** ** Entries that are not PDF files *)

Section Ignored.

Context {env : Env}.

Lemma find_filter (A : Type) (f g : A -> bool) (l : list A) :
  (forall x, g x = true -> f x = true) ->
  List.find g (filter f l) = List.find g l.
Proof.
  intros H. induction l as [|x l IH]; [reflexivity|]. simpl.
  destruct (f x) eqn:Hf; simpl.
  - destruct (g x); [reflexivity | exact IH].
  - destruct (g x) eqn:Hg; [|exact IH]. apply H in Hg. congruence.
Qed.

Lemma filter_twice (A : Type) (f : A -> bool) (l : list A) :
  filter f (filter f l) = filter f l.
Proof.
  induction l as [|x l IH]; [reflexivity|]. simpl.
  destruct (f x) eqn:Hf; simpl; [rewrite Hf, IH|]; auto.
Qed.

Lemma filter_rev_comm (A : Type) (f : A -> bool) (l : list A) :
  filter f (rev l) = rev (filter f l).
Proof.
  induction l as [|x l IH]; [reflexivity|]. simpl.
  rewrite filter_app, IH. simpl. destruct (f x); simpl; [reflexivity|].
  apply app_nil_r.
Qed.

Lemma zf_read_pdf_files (zf : ZipFile) (name : str) :
  pdf_name name = true -> zf_read (pdf_files zf) name = zf_read zf name.
Proof.
  intros Hn. unfold zf_read, getinfo, pdf_files.
  rewrite <- filter_rev_comm, find_filter; [reflexivity|].
  intros info H. apply str_eqb_eq in H. unfold is_pdf. rewrite H. exact Hn.
Qed.

Lemma submit_all_pdf_files (zf : ZipFile) (infos : list ZipInfo) :
  Forall (fun info => is_pdf info = true) infos ->
  submit_all (pdf_files zf) infos = submit_all zf infos.
Proof.
  induction 1 as [|info rest Hi _ IH]; [reflexivity|].
  cbn [submit_all]. rewrite zf_read_pdf_files by exact Hi. rewrite IH. reflexivity.
Qed.

Lemma loop_pdf_files (zf : ZipFile) (done : list (Future * str)) :
  Forall (fun item => pdf_name (snd item) = true) done ->
  forall st, loop (pdf_files zf) done st = loop zf done st.
Proof.
  unfold loop. induction 1 as [|item done Hi _ IH]; intros st; [reflexivity|].
  cbn [fold_left]. rewrite IH. f_equal.
  unfold step, step_try. rewrite zf_read_pdf_files by exact Hi. reflexivity.
Qed.

Lemma processamento_pdf_files (zf : ZipFile) :
  processamento (pdf_files zf) = processamento zf.
Proof.
  unfold processamento.
  replace (pdf_files (pdf_files zf)) with (pdf_files zf)
    by (symmetry; apply filter_twice).
  assert (Hpdf : Forall (fun info => is_pdf info = true) (pdf_files zf)).
  { apply Forall_forall. intros info H. apply filter_In in H. tauto. }
  rewrite (submit_all_pdf_files _ Hpdf).
  destruct (submit_all zf (pdf_files zf)) as [futs|e] eqn:Hs; [|reflexivity].
  cbn [bind]. rewrite loop_pdf_files; [reflexivity|].
  destruct (submit_all_spec _ _ Hs) as [-> _].
  apply Forall_forall. intros item Hin.
  apply (Permutation_in _ (as_completed_perm _)) in Hin.
  apply in_map_iff in Hin as (info & <- & Hinfo).
  rewrite Forall_forall in Hpdf. exact (Hpdf _ Hinfo).
Qed.

(** X14. Entries whose name does not end in ".pdf" play no part: two
    archives with the same qualifying entries in the same order give the
    same outcome, be it the same batch or the same error. *)
Theorem other_entries_are_ignored (zf1 zf2 : ZipFile) :
  pdf_files zf1 = pdf_files zf2 -> processamento zf1 = processamento zf2.
Proof.
  intros H. rewrite <- (processamento_pdf_files zf1), H.
  apply processamento_pdf_files.
Qed.

End Ignored.

(** ** The dashboard *)

Lemma str_leb_total (a b : str) : str_leb a b = true \/ str_leb b a = true.
Proof.
  revert b; induction a as [|x a IH]; intros b; [left; reflexivity|].
  destruct b as [|y b]; [right; reflexivity|]. simpl.
  destruct (N.ltb_spec x y); [left; reflexivity|].
  destruct (N.ltb_spec y x); [right; reflexivity|].
  assert (x = y) by lia. subst y. rewrite N.eqb_refl. apply IH.
Qed.

Lemma insert_sorted_perm (x : str) (l : list str) :
  Permutation (insert_sorted x l) (x :: l).
Proof.
  induction l as [|y l IH]; simpl; [reflexivity|].
  destruct (str_leb x y); [reflexivity|].
  rewrite IH. apply perm_swap.
Qed.

Lemma sorted_perm (l : list str) : Permutation (sorted l) l.
Proof.
  induction l as [|x l IH]; simpl; [reflexivity|].
  rewrite insert_sorted_perm. apply perm_skip, IH.
Qed.

Lemma insert_sorted_sorted (x : str) (l : list str) :
  Sorted (fun a b => str_leb a b = true) l ->
  Sorted (fun a b => str_leb a b = true) (insert_sorted x l).
Proof.
  induction 1 as [|y l Hl IH Hhd]; simpl; [repeat constructor|].
  destruct (str_leb x y) eqn:Hxy.
  - constructor; [constructor; assumption | constructor; exact Hxy].
  - constructor; [exact IH|].
    destruct (str_leb_total x y) as [H | Hyx]; [congruence|].
    destruct l as [|z l]; simpl; [constructor; exact Hyx|].
    destruct (str_leb x z); constructor; [exact Hyx|].
    inversion Hhd. assumption.
Qed.

Lemma sorted_sorted (l : list str) :
  Sorted (fun a b => str_leb a b = true) (sorted l).
Proof.
  induction l as [|x l IH]; simpl; [constructor|].
  apply insert_sorted_sorted, IH.
Qed.

Lemma unique_In (l : list str) (x : str) : In x (unique l) <-> In x l.
Proof.
  induction l as [|y l IH]; simpl; [tauto|].
  rewrite filter_In, IH, negb_true_iff. split.
  - intros [H | [H _]]; auto.
  - intros [H | H]; [auto|].
    destruct (str_eqb x y) eqn:E; [left; symmetry; apply str_eqb_eq, E | auto].
Qed.

Lemma unique_NoDup (l : list str) : NoDup (unique l).
Proof.
  induction l as [|y l IH]; simpl; constructor.
  - rewrite filter_In, negb_true_iff, str_eqb_refl. intros [_ H]. discriminate.
  - apply NoDup_filter, IH.
Qed.

Lemma isin_In (x : str) (l : list str) : isin x l = true <-> In x l.
Proof.
  unfold isin. rewrite existsb_exists. split.
  - intros (y & Hin & E). apply str_eqb_eq in E. subst. exact Hin.
  - intros H. exists x. split; [exact H | apply str_eqb_refl].
Qed.

Lemma filter_all (A : Type) (f : A -> bool) (l : list A) :
  (forall x, In x l -> f x = true) -> filter f l = l.
Proof.
  induction l as [|x l IH]; intros H; [reflexivity|]. simpl.
  rewrite (H x) by (left; reflexivity). f_equal. apply IH.
  intros; apply H; right; assumption.
Qed.

Lemma empresas_In (df : list Row) (x : str) :
  In x (empresas df) <-> exists row, In row df /\ Empresa row = x.
Proof.
  unfold empresas. split.
  - intros H. apply (Permutation_in _ (sorted_perm _)), unique_In, in_map_iff in H.
    destruct H as (row & E & Hin). eauto.
  - intros (row & Hin & <-).
    apply (Permutation_in _ (Permutation_sym (sorted_perm _))), unique_In, in_map, Hin.
Qed.

(** X15. The companies offered by the dashboard are the company names
    of the records: every such name once, none else, in ascending order
    of their code points. *)
Theorem empresas_sorted_without_duplicates (all_results : list result) :
  Sorted (fun a b => str_leb a b = true) (empresas (dataframe all_results))
  /\ NoDup (empresas (dataframe all_results))
  /\ forall x, In x (empresas (dataframe all_results))
               <-> exists r, In r all_results /\ empresa r = x.
Proof.
  split; [apply sorted_sorted|]. split.
  - apply (Permutation_NoDup (Permutation_sym (sorted_perm _))), unique_NoDup.
  - intros x. rewrite empresas_In. unfold dataframe. split.
    + intros (row & Hin & <-). apply in_map_iff in Hin as (r & <- & Hr). eauto.
    + intros (r & Hr & <-). eexists. split; [apply in_map, Hr | reflexivity].
Qed.

(** X16. With every company selected and both status boxes on "Todos",
    as the page starts, the filters keep the whole data frame. *)
Theorem default_filters_keep_everything (df : list Row) :
  aplicar_filtros df (empresas df) todos todos = df.
Proof.
  unfold aplicar_filtros. cbn [str_eqb negb]. rewrite str_eqb_refl. cbn [negb].
  apply filter_all. intros row Hin. apply isin_In, empresas_In. eauto.
Qed.

Lemma sim_nao_is_sim (b : bool) : str_eqb (sim_nao b) sim = b.
Proof. destruct b; reflexivity. Qed.

Lemma count_le_length (A : Type) (p : A -> bool) (l : list A) :
  count p l <= length l.
Proof. unfold count. apply filter_length_le. Qed.

Lemma count_inclusion_exclusion (A : Type) (p q : A -> bool) (l : list A) :
  count (fun x => p x && q x) l <= count p l
  /\ count (fun x => p x && q x) l <= count q l
  /\ count p l + count q l <= length l + count (fun x => p x && q x) l.
Proof.
  unfold count. induction l as [|x l IH]; simpl; [lia|].
  destruct (p x), (q x); simpl; lia.
Qed.

(** X17. The four indicators count flags: on the data frame of a list
    of records they are the number of records, of records with the RF
    flag, with the PGFN flag and with both.  On any frame, "both" is at
    most each of the two, each is at most the total, and the two
    together are at most the total plus "both". *)
Theorem kpis_count_the_flags :
  (forall all_results,
      kpis (dataframe all_results)
      = {| total_empresas := length all_results;
           rf_sim := count rf all_results;
           pgfn_sim := count pgfn all_results;
           ambos_sim := count (fun r => rf r && pgfn r) all_results |})
  /\ (forall df,
        ambos_sim (kpis df) <= rf_sim (kpis df)
        /\ ambos_sim (kpis df) <= pgfn_sim (kpis df)
        /\ rf_sim (kpis df) <= total_empresas (kpis df)
        /\ pgfn_sim (kpis df) <= total_empresas (kpis df)
        /\ rf_sim (kpis df) + pgfn_sim (kpis df)
           <= total_empresas (kpis df) + ambos_sim (kpis df)).
Proof.
  split.
  - intros rs. unfold kpis, dataframe. rewrite length_map, !count_map. cbn.
    f_equal; apply count_ext; intros r _; rewrite ?sim_nao_is_sim; reflexivity.
  - intros df. unfold kpis. cbn.
    pose proof (count_inclusion_exclusion
                  (fun row => str_eqb (Parcelamento_RF row) sim)
                  (fun row => str_eqb (Parcelamento_PGFN row) sim) df).
    pose proof (count_le_length (fun row => str_eqb (Parcelamento_RF row) sim) df).
    pose proof (count_le_length (fun row => str_eqb (Parcelamento_PGFN row) sim) df).
    lia.
Qed.

(** The filters are one filter by the conjunction of the three
    conditions. *)
Lemma aplicar_filtros_spec (df : list Row) (filtro_empresas : list str)
    (status_rf status_pgfn : str) (row : Row) :
  In row (aplicar_filtros df filtro_empresas status_rf status_pgfn)
  <-> In row df
      /\ In (Empresa row) filtro_empresas
      /\ (status_rf = todos \/ Parcelamento_RF row = status_rf)
      /\ (status_pgfn = todos \/ Parcelamento_PGFN row = status_pgfn).
Proof.
  unfold aplicar_filtros. cbv zeta.
  destruct (str_eqb status_rf todos) eqn:E1; destruct (str_eqb status_pgfn todos) eqn:E2;
    cbn [negb]; rewrite ?filter_In, ?isin_In, ?str_eqb_eq;
    try (apply str_eqb_eq in E1); try (apply str_eqb_eq in E2);
    split; intros H; repeat split; try tauto.
  all: try (right; tauto).
  all: try (destruct H as (_ & _ & [H | H] & _); [congruence | exact H]).
  all: try (destruct H as (_ & _ & _ & [H | H]); [congruence | exact H]).
  all: rewrite <- ?not_true_iff_false, ?str_eqb_eq in *; tauto.
Qed.

(** X18. Choosing "Sim" in the RF box makes the RF indicator equal to
    the total; choosing "Não" makes the RF indicator and the "both"
    indicator zero.  The PGFN box does the same for the PGFN
    indicator. *)
Theorem status_filter_fixes_indicator (df : list Row) (filtro_empresas : list str)
    (status : str) :
  (let k := kpis (aplicar_filtros df filtro_empresas sim status) in
   rf_sim k = total_empresas k)
  /\ (let k := kpis (aplicar_filtros df filtro_empresas nao status) in
      rf_sim k = 0 /\ ambos_sim k = 0)
  /\ (let k := kpis (aplicar_filtros df filtro_empresas status sim) in
      pgfn_sim k = total_empresas k)
  /\ (let k := kpis (aplicar_filtros df filtro_empresas status nao) in
      pgfn_sim k = 0 /\ ambos_sim k = 0).
Proof.
  cbv zeta. unfold kpis. cbn [rf_sim pgfn_sim ambos_sim total_empresas].
  repeat split.
  - unfold count. f_equal. apply filter_all. intros row H.
    apply aplicar_filtros_spec in H as (_ & _ & [H | H] & _); [discriminate H|].
    rewrite H. reflexivity.
  - apply count_none. intros row H.
    apply aplicar_filtros_spec in H as (_ & _ & [H | H] & _); [discriminate H|].
    rewrite H. reflexivity.
  - apply count_none. intros row H.
    apply aplicar_filtros_spec in H as (_ & _ & [H | H] & _); [discriminate H|].
    rewrite H. reflexivity.
  - unfold count. f_equal. apply filter_all. intros row H.
    apply aplicar_filtros_spec in H as (_ & _ & _ & [H | H]); [discriminate H|].
    rewrite H. reflexivity.
  - apply count_none. intros row H.
    apply aplicar_filtros_spec in H as (_ & _ & _ & [H | H]); [discriminate H|].
    rewrite H. reflexivity.
  - apply count_none. intros row H.
    apply aplicar_filtros_spec in H as (_ & _ & _ & [H | H]); [discriminate H|].
    rewrite H. apply andb_false_r.
Qed.

Section Download.

Context {env : Env}.

Variable zf : ZipFile.

(** The loop finds the file of the first record of the wanted company. *)
Lemma find_pdf_first (records : list result) (matched : list (str * bytes)) (l1 l2 : list result)
    (r0 : result) :
  Forall2 (fun r f => fst f = empresa r ++ dot_pdf
                      /\ zf_read zf (filename r) = Ok (snd f)) records matched ->
  records = l1 ++ r0 :: l2 ->
  (forall r, In r l1 -> empresa r <> empresa r0) ->
  exists file_bytes,
    zf_read zf (filename r0) = Ok file_bytes
    /\ find_pdf matched (empresa r0 ++ dot_pdf) = Some file_bytes.
Proof.
  intros H. revert l1. induction H as [|r [nm b] records matched [Hn Hb] _ IH];
    intros l1 E Hl1.
  - destruct l1; discriminate.
  - cbn [fst snd] in Hn, Hb. subst nm. cbn [find_pdf].
    rewrite str_eqb_app_tail.
    destruct l1 as [|x l1]; simpl in E; injection E as E1 E2; subst.
    + rewrite str_eqb_refl. eauto.
    + destruct (str_eqb (empresa x) (empresa r0)) eqn:Ex.
      * apply str_eqb_eq in Ex. exfalso. apply (Hl1 x); [left; reflexivity | exact Ex].
      * apply (IH l1 eq_refl). intros r Hr. apply Hl1. right. exact Hr.
Qed.

(** X19. On the dashboard, selecting the company of a record of the
    batch looks up the renamed file of the first record of that company:
    the page offers its bytes for download under the company name
    followed by ".pdf", or says that the PDF was not found when that
    file is empty.  Files of later records of the same company are never
    offered.  (A company called "(Selecione)" counts as no selection.) *)
Theorem dashboard_offers_first_file (batch : Batch) (l1 l2 : list result) (r0 : result) :
  processamento zf = Ok batch ->
  all_results (dados batch) = l1 ++ r0 :: l2 ->
  (forall r, In r l1 -> empresa r <> empresa r0) ->
  empresa r0 <> selecione ->
  exists file_bytes,
    zf_read zf (filename r0) = Ok file_bytes
    /\ buscar_pdf (matched_files (dados batch)) (empresa r0)
       = match file_bytes with
         | [] => Nao_encontrado
         | _ :: _ => Baixar (empresa r0 ++ dot_pdf) file_bytes
         end.
Proof.
  intros Hp E Hfirst Hsel.
  destruct (processamento_inv _ Hp) as (done & _ & _ & Hsub & Hr & Hm & _).
  pose proof (batch_matched Hsub) as H2. rewrite <- Hr, <- Hm in H2.
  destruct (@find_pdf_first _ _ l1 l2 r0 H2 E Hfirst) as (b & Hb & Hf).
  exists b. split; [exact Hb|]. unfold buscar_pdf.
  assert (Hne : nonempty (empresa r0) = true).
  { assert (Hin : In r0 (flat_map records_of done))
      by (rewrite <- Hr, E; apply in_elt).
    destruct (batch_record_origin _ _ Hin) as (_ & c & n & _ & _ & -> & _).
    reflexivity. }
  assert (Hns : str_eqb (empresa r0) selecione = false).
  { destruct (str_eqb (empresa r0) selecione) eqn:Es; [|reflexivity].
    apply str_eqb_eq in Es. contradiction. }
  rewrite Hne, Hns. cbn [andb negb]. rewrite Hf. destruct b; reflexivity.
Qed.

(** X20. Filtering twice by the same terms is filtering once, and the
    result never has more records than the input. *)
Theorem filter_results_idempotent (results : list result) (search_terms : list str) :
  filter_results (filter_results results search_terms) search_terms
  = filter_results results search_terms
  /\ length (filter_results results search_terms) <= length results.
Proof.
  destruct search_terms as [|t ts]; [split; [reflexivity | simpl; lia]|].
  unfold filter_results. rewrite !filter_loop_spec. cbn [app].
  split; [apply filter_twice | apply filter_length_le].
Qed.

End Download.

(** ** What the page shows *)

Section Screen.

Context {env : Env}.

(** X21. After a batch the page shows the full table under "Todos os
    Resultados" exactly when the search box is blank (separators and
    white space only).  It shows the warning exactly when the box gives
    at least one term and no record's lowered company name contains a
    lowered term; the warning then lists the terms with ", " between
    them. *)
Theorem screen_cases (all_results : list result) (search_input : str) :
  (exibir all_results (parse_search_terms search_input) = Todos (dataframe all_results)
   <-> forallb (fun c => is_separator c || isspace c) search_input = true)
  /\ ((exists msg, exibir all_results (parse_search_terms search_input) = Aviso msg)
      <-> parse_search_terms search_input <> []
          /\ forall r term,
               In r all_results -> In term (parse_search_terms search_input) ->
               ~ occurs (lower term) (lower (empresa r)))
  /\ (forall msg,
        exibir all_results (parse_search_terms search_input) = Aviso msg ->
        msg = nenhuma_empresa ++ join comma_space (parse_search_terms search_input)).
Proof.
  rewrite <- parse_blank.
  set (terms := parse_search_terms search_input).
  unfold exibir. destruct terms as [|t ts] eqn:Et.
  - cbn [nonempty]. split; [tauto|]. split; [|discriminate].
    split; [intros [msg H]; discriminate | intros [H _]; congruence].
  - cbn [nonempty]. cbv zeta.
    assert (Ef : filter_results all_results (t :: ts)
                 = filter (keeps (t :: ts)) all_results)
      by (unfold filter_results; rewrite filter_loop_spec; reflexivity).
    rewrite Ef.
    destruct (filter (keeps (t :: ts)) all_results) as [|r0 rest] eqn:Hf; cbn [nonempty].
    + split; [split; discriminate|]. split.
      * split; [|eauto]. intros _. split; [discriminate|].
        intros r term Hr Hterm Hocc. apply filter_nil_iff in Hf.
        rewrite Forall_forall in Hf. specialize (Hf _ Hr).
        unfold keeps in Hf.
        assert (Ht : existsb (fun term0 => contains (lower term0) (lower (empresa r)))
                       (t :: ts) = true).
        { apply existsb_exists. exists term. split; [exact Hterm|].
          apply contains_iff, Hocc. }
        congruence.
      * intros msg H. injection H as <-. reflexivity.
    + split; [split; discriminate|]. split; [|discriminate].
      split; [intros [msg H]; discriminate|].
      intros [_ Hno]. exfalso.
      assert (Hin : In r0 (filter (keeps (t :: ts)) all_results))
        by (rewrite Hf; left; reflexivity).
      apply filter_In in Hin as [Hr Hk]. unfold keeps in Hk.
      apply existsb_exists in Hk as (term & Hterm & Hc).
      apply (Hno r0 term Hr Hterm), contains_iff, Hc.
Qed.

End Screen.

(** ** The further properties at work on the example data *)

Lemma search_terms_are_clean_witness :
  In Demo2.beta (parse_search_terms Demo2.search_text)
  /\ trimmed Demo2.beta = true /\ no_separator Demo2.beta = true.
Proof.
  assert (H : In Demo2.beta (parse_search_terms Demo2.search_text))
    by (vm_compute; right; left; reflexivity).
  split; [exact H | exact (search_terms_are_clean Demo2.search_text Demo2.beta H)].
Defined.

Lemma search_terms_round_trip_witness :
  Forall (fun t => trimmed t = true /\ no_separator t = true) [Demo.acme; Demo2.beta_sa]
  /\ parse_search_terms (join comma_space [Demo.acme; Demo2.beta_sa])
     = [Demo.acme; Demo2.beta_sa].
Proof.
  assert (H : Forall (fun t => trimmed t = true /\ no_separator t = true)
                [Demo.acme; Demo2.beta_sa])
    by (repeat constructor).
  split; [exact H | exact (search_terms_round_trip H)].
Defined.

Lemma appended_text_after_pgfn_witness :
  occurs pgfn_title (template [] [] [] [] [])
  /\ fst (analyze_text (template [] [] [] [] [] ++ em_parcelamento))
     = fst (analyze_text (template [] [] [] [] [])).
Proof.
  assert (H : occurs pgfn_title (template [] [] [] [] []))
    by (apply contains_iff; vm_compute; reflexivity).
  split; [exact H|].
  exact (proj1 (appended_text_after_pgfn em_parcelamento H)).
Defined.

Lemma extract_text_page_by_page_witness :
  @PdfReader toy_env Demo.doc_beta = Ok (map Ok Demo2.beta_pages)
  /\ @extract_text_from_bytes toy_env Demo.doc_beta
     = Ok (concat (map page_text Demo2.beta_pages))
  /\ @extract_text_from_bytes toy_env Demo.doc_corrupt = Raise Toy.empty_file.
Proof.
  assert (H : @PdfReader toy_env Demo.doc_beta = Ok (map Ok Demo2.beta_pages))
    by (vm_compute; reflexivity).
  split; [exact H|]. split.
  - exact (proj1 (@extract_text_page_by_page toy_env Demo.doc_beta) _ H).
  - apply (proj2 (proj2 (@extract_text_page_by_page toy_env Demo.doc_corrupt))).
    reflexivity.
Defined.

Lemma process_pdf_composes_witness :
  @extract_text_from_bytes toy_env Demo.doc_acme = Ok Demo2.acme_text
  /\ @extract_company_name_from_bytes toy_env Demo.doc_acme = Ok (Some acme_ltda)
  /\ @process_pdf toy_env Demo.doc_acme
     = (Ok (Some acme_ltda, fst (analyze_text Demo2.acme_text),
            snd (analyze_text Demo2.acme_text)), []).
Proof.
  assert (H1 : @extract_text_from_bytes toy_env Demo.doc_acme = Ok Demo2.acme_text)
    by (vm_compute; reflexivity).
  assert (H2 : @extract_company_name_from_bytes toy_env Demo.doc_acme
               = Ok (Some acme_ltda))
    by (vm_compute; reflexivity).
  split; [exact H1|]. split; [exact H2|].
  exact (proj1 (@process_pdf_composes toy_env Demo.doc_acme) _ _ H1 H2).
Defined.

Lemma record_names_are_clean_witness :
  In Demo2.record_beta (all_results (dados Demo.batch_demo))
  /\ trimmed Demo2.beta_sa = true /\ forallb not_newline Demo2.beta_sa = true.
Proof.
  assert (H : In Demo2.record_beta (all_results (dados Demo.batch_demo)))
    by (vm_compute; right; left; reflexivity).
  split; [exact H|].
  exact (@record_names_are_clean toy_env Demo.zf_demo Demo.batch_demo
           Demo2.record_beta demo_runs H).
Defined.

Lemma batch_writes_every_pdf_witness :
  @processamento toy_env Demo.zf_demo = Ok Demo.batch_demo
  /\ processed (dados Demo.batch_demo) = length (@pdf_files toy_env Demo.zf_demo)
  /\ length (zout Demo.batch_demo) = length (@pdf_files toy_env Demo.zf_demo).
Proof.
  split; [exact demo_runs|].
  exact (@batch_writes_every_pdf toy_env Demo.zf_demo Demo.batch_demo demo_runs).
Defined.

Lemma written_bytes_come_from_input_witness :
  In (renomeados ++ Demo2.beta_sa ++ dot_pdf, Demo.doc_beta) (zout Demo.batch_demo)
  /\ exists info,
       In info (@pdf_files toy_env Demo.zf_demo)
       /\ zf_read Demo.zf_demo (zi_filename info) = Ok Demo.doc_beta.
Proof.
  assert (H : In (renomeados ++ Demo2.beta_sa ++ dot_pdf, Demo.doc_beta)
                (zout Demo.batch_demo))
    by (vm_compute; right; left; reflexivity).
  split; [exact H|].
  destruct (@written_bytes_come_from_input toy_env Demo.zf_demo Demo.batch_demo
              _ _ demo_runs H) as (info & Hin & Hb & _ & _).
  exists info. split; assumption.
Defined.

Lemma batch_order_independent_witness :
  @processamento toy_env Demo.zf_demo = Ok Demo.batch_demo
  /\ Permutation (all_results (dados Demo.batch_demo))
       (all_results
          (loop Demo.zf_demo
             (map (@item_of toy_env Demo.zf_demo) (@pdf_files toy_env Demo.zf_demo))
             acc0)).
Proof.
  split; [exact demo_runs|].
  exact (proj1 (@batch_order_independent toy_env Demo.zf_demo Demo.batch_demo
                  _ demo_runs (Permutation_refl _))).
Defined.

Lemma other_entries_are_ignored_witness :
  @pdf_files toy_env Demo.zf_demo = @pdf_files toy_env Demo2.zf_only_pdfs
  /\ @processamento toy_env Demo.zf_demo = @processamento toy_env Demo2.zf_only_pdfs.
Proof.
  assert (H : @pdf_files toy_env Demo.zf_demo = @pdf_files toy_env Demo2.zf_only_pdfs)
    by (vm_compute; reflexivity).
  split; [exact H | exact (@other_entries_are_ignored toy_env _ _ H)].
Defined.

Lemma dashboard_offers_first_file_witness :
  all_results (dados Demo.batch_demo)
    = [] ++ Demo2.record_acme_e :: [Demo2.record_beta; Demo2.record_acme_a]
  /\ exists file_bytes,
       zf_read Demo.zf_demo (utf8 "e.pdf") = Ok file_bytes
       /\ buscar_pdf (matched_files (dados Demo.batch_demo)) acme_ltda
          = match file_bytes with
            | [] => Nao_encontrado
            | _ :: _ => Baixar (acme_ltda ++ dot_pdf) file_bytes
            end.
Proof.
  assert (E : all_results (dados Demo.batch_demo)
              = [] ++ Demo2.record_acme_e :: [Demo2.record_beta; Demo2.record_acme_a])
    by (vm_compute; reflexivity).
  split; [exact E|].
  apply (@dashboard_offers_first_file toy_env Demo.zf_demo Demo.batch_demo
           [] [Demo2.record_beta; Demo2.record_acme_a] Demo2.record_acme_e
           demo_runs E).
  - intros r [].
  - discriminate.
Defined.

Lemma screen_cases_witness :
  @exibir toy_env (all_results (dados Demo.batch_demo)) (parse_search_terms Demo2.zeta)
    = Aviso (nenhuma_empresa ++ Demo2.zeta)
  /\ nenhuma_empresa ++ Demo2.zeta
     = nenhuma_empresa ++ join comma_space (parse_search_terms Demo2.zeta).
Proof.
  assert (H : @exibir toy_env (all_results (dados Demo.batch_demo))
                (parse_search_terms Demo2.zeta)
              = Aviso (nenhuma_empresa ++ Demo2.zeta))
    by (vm_compute; reflexivity).
  split; [exact H|].
  exact (proj2 (proj2 (@screen_cases toy_env (all_results (dados Demo.batch_demo))
                         Demo2.zeta)) _ H).
Defined.
